(** * Import-migration scripts of Planidocs: a shallow embedding

    The three scripts under [src/scripts] rewrite import statements with
    Python's [re] module and write the result back to disk:

    - [fix_imports.py]: an ordered rule table applied to every
      TypeScript/JavaScript file below a root directory, with a dry-run mode;
    - [fix_planning_imports.py]: a fixed list of substitutions applied to one
      file, written back unconditionally;
    - [update_imports.py]: one substitution whose replacement depends on the
      depth of the file's path.

    The development has two parts: the definitions (a model of the fragment
    of [re] the scripts use, a model of the file system and console, then the
    scripts themselves), and the theorems about them. *)

From Stdlib Require Import String Ascii List Arith ZArith Lia Bool DecimalString.
Import ListNotations.

Local Open Scope string_scope.
Local Open Scope list_scope.

(* ===================================================================== *)
(** * Part I: definitions *)
(* ===================================================================== *)

(** ** Strings *)

Module Str.

(** The double-quote character, and a text between double quotes. *)
Definition dq : ascii := "034"%char.

Definition quoted (s : string) : string := String dq (s ++ String dq "").

(** Python's [str(n)] for a natural number. *)
Definition of_nat (n : nat) : string := NilEmpty.string_of_uint (Nat.to_uint n).

(** Python's [s * n] for a count [n]. *)
Fixpoint repeat (s : string) (n : nat) : string :=
  match n with
  | 0 => ""
  | S k => s ++ repeat s k
  end.

(** Python's [s.count(c)] for a one-character [c]. *)
Fixpoint count (c : ascii) (s : string) : nat :=
  match s with
  | "" => 0
  | String a t => (if Ascii.eqb a c then 1 else 0) + count c t
  end.

(** Python's [s.startswith(p)]. *)
Fixpoint startswith (p s : string) : bool :=
  match p, s with
  | "", _ => true
  | String a p', String b s' => Ascii.eqb a b && startswith p' s'
  | String _ _, "" => false
  end.

(** Python's [s.endswith(p)]: some suffix of [s] is [p]. *)
Fixpoint endswith (p s : string) : bool :=
  String.eqb p s ||
  match s with
  | "" => false
  | String _ t => endswith p t
  end.

(** Python's [s[n:]]. *)
Fixpoint drop (n : nat) (s : string) : string :=
  match n, s with
  | 0, _ => s
  | S k, String _ t => drop k t
  | S _, "" => ""
  end.

(** The last component of a path: what follows its last ['/']. *)
Fixpoint basename (p : string) : string :=
  match p with
  | "" => ""
  | String c t => if (0 <? count "/"%char p)%nat then basename t else p
  end.

End Str.

(** ** Paths as [pathlib] writes them

    [Path(root_dir)] does not keep its argument as typed: the text is cut at
    every ['/'], empty components and [.] components are dropped, a leading
    ['/'] is kept (two of them when there are exactly two), and the empty
    relative path is written [.].  A [..] component stays.  The paths
    [rglob] yields are that text followed by the names on the way down to
    the entry, with nothing in front when the root is [.]. *)

Module Pathlib.

(** [s.split('/')]. *)
Fixpoint split (s : string) : list string :=
  match s with
  | "" => [""]
  | String c t =>
      if Ascii.eqb c "/"%char then "" :: split t
      else match split t with
           | [] => [String c ""]
           | h :: r => String c h :: r
           end
  end.

(** The root of a path: [/], [//] when the text begins with exactly two
    slashes, nothing for a relative path. *)
Definition anchor (s : string) : string :=
  if Str.startswith "///" s then "/"
  else if Str.startswith "//" s then "//"
  else if Str.startswith "/" s then "/"
  else "".

Definition kept (component : string) : bool :=
  negb (String.eqb component "") && negb (String.eqb component ".").

(** The components that stay. *)
Definition parts (s : string) : list string := filter kept (split s).

(** [str(Path(s))]. *)
Definition normal (s : string) : string :=
  match anchor s, parts s with
  | "", [] => "."
  | a, ps => a ++ String.concat "/" ps
  end.

(** What is written in front of the names below a directory. *)
Definition stem (directory : string) : string :=
  if String.eqb directory "." then ""
  else if Str.endswith "/" directory then directory
  else directory ++ "/".

(** [strip p s]: what follows [p] in [s], when [s] begins with [p]. *)
Fixpoint strip (p s : string) : option string :=
  match p, s with
  | "", _ => Some s
  | String a p', String b s' => if Ascii.eqb a b then strip p' s' else None
  | String _ _, "" => None
  end.

(** The name of an entry of a directory. *)
Definition name (component : string) : bool :=
  negb (String.eqb component "") && negb (String.eqb component ".")
  && negb (String.eqb component "..").

(** [under root_dir path]: [path] is [Path(root_dir)] followed by one name
    or more.  The listing holds every entry under the path the script
    gets for it; a root with a [..] in it reaches its entries through that
    [..]. *)
Definition under (root_dir path : string) : bool :=
  match strip (stem (normal root_dir)) path with
  | Some rest => forallb name (split rest)
  | None => false
  end.

End Pathlib.

(** ** The fragment of Python's [re] the scripts use

    Every pattern of the three scripts is a sequence of single-character
    atoms (literals, escaped or not, a bracket class, [.], [\s]), each taken
    once or under a greedy [*], with capturing parentheses that are never
    nested.  [match_at] is the backtracking matcher of that fragment;
    [scan] is the left-to-right search loop [re.findall] and [re.sub] share. *)

Module Re.

Inductive charset : Type :=
| Lit (c : ascii)          (* a literal character: [a], [\.], [\/], [\{] *)
| AnyOf (cs : list ascii)  (* a bracket class, such as the class of the two quotes *)
| Dot                      (* [.]: any character but a newline *)
| Space.                   (* [\s] *)

Inductive item : Type :=
| One (k : charset)        (* the atom, once *)
| Star (k : charset)       (* the atom under a greedy [*] *)
| Open                     (* [(] *)
| Close.                   (* [)] *)

Definition regex : Type := list item.

(** [\s] on the code points below 256: [str.isspace] holds of them. *)
Definition is_space (c : ascii) : bool :=
  let n := nat_of_ascii c in
  ((9 <=? n)%nat && (n <=? 13)%nat) || ((28 <=? n)%nat && (n <=? 32)%nat)
  || (n =? 133)%nat || (n =? 160)%nat.

Definition accepts (k : charset) (c : ascii) : bool :=
  match k with
  | Lit a => Ascii.eqb a c
  | AnyOf cs => existsb (Ascii.eqb c) cs
  | Dot => negb (Ascii.eqb c "010"%char)
  | Space => is_space c
  end.

(** A match found at the head of a text: how many characters it spans, and
    the [(start, end)] offsets of its groups in the order they were closed
    (which, without nesting, is the order of their opening parentheses). *)
Definition found : Type := (nat * list (nat * nat))%type.

(** Greedy star: take the atom as long as it is accepted, then go on with
    [rest]; when [rest] fails, give one character back and retry. *)
Fixpoint star_then (k : charset) (rest : nat -> string -> option found)
    (pos : nat) (s : string) {struct s} : option found :=
  match s with
  | String c t =>
      if accepts k c then
        match star_then k rest (S pos) t with
        | Some m => Some m
        | None => rest pos s
        end
      else rest pos s
  | "" => rest pos s
  end.

(** [match_here r pos opened caps s]: match [r] against the head of [s],
    [pos] characters into the match, [opened] the starts of the groups not
    yet closed, [caps] the groups already closed. *)
Fixpoint match_here (r : regex) (pos : nat) (opened : list nat)
    (caps : list (nat * nat)) (s : string) {struct r} : option found :=
  match r with
  | [] => Some (pos, caps)
  | One k :: r' =>
      match s with
      | String c t =>
          if accepts k c then match_here r' (S pos) opened caps t else None
      | "" => None
      end
  | Star k :: r' =>
      star_then k (fun pos' s' => match_here r' pos' opened caps s') pos s
  | Open :: r' => match_here r' pos (pos :: opened) caps s
  | Close :: r' =>
      match opened with
      | b :: o => match_here r' pos o (caps ++ [(b, pos)]) s
      | [] => match_here r' pos [] caps s
      end
  end.

Definition match_at (r : regex) (s : string) : option found :=
  match_here r 0 [] [] s.

(** Every way a pattern can match the head of a text, whatever the order
    in which the matcher tries them: [Matches r s w] when [r] matches the
    first [w] characters of [s]. *)
Inductive Matches : regex -> string -> nat -> Prop :=
| Matches_end : forall s, Matches [] s 0
| Matches_one : forall k r c t w,
    accepts k c = true -> Matches r t w -> Matches (One k :: r) (String c t) (S w)
| Matches_star_stop : forall k r s w,
    Matches r s w -> Matches (Star k :: r) s w
| Matches_star_more : forall k r c t w,
    accepts k c = true -> Matches (Star k :: r) t w ->
    Matches (Star k :: r) (String c t) (S w)
| Matches_open : forall r s w, Matches r s w -> Matches (Open :: r) s w
| Matches_close : forall r s w, Matches r s w -> Matches (Close :: r) s w.

(** The search loop cuts the text into pieces: characters no match covers,
    and matches (their text and the texts of their groups). *)
Inductive piece : Type :=
| Keep (c : ascii)
| Hit (text : string) (groups : list string).

Definition hit_of (s : string) (m : found) : piece :=
  Hit (substring 0 (fst m) s)
      (map (fun be => substring (fst be) (snd be - fst be) s) (snd m)).

(** [scan r skip s]: the pieces of [s], whose first [skip] characters belong
    to the match just found.  The search is leftmost and non-overlapping.
    After a non-empty match the search resumes at its end, where an empty
    match is accepted; after an empty match the character at that position
    is kept and the search resumes behind it: [re] asks for a match that
    is not empty at that place, and in this fragment a pattern whose
    preferred match is empty has no other there
    ([Matcher.match_at_empty_only]). *)
Fixpoint scan (r : regex) (skip : nat) (s : string) {struct s} : list piece :=
  match skip with
  | S k =>
      match s with
      | String _ t => scan r k t
      | "" => []
      end
  | 0 =>
      match match_at r s with
      | None =>
          match s with
          | String c t => Keep c :: scan r 0 t
          | "" => []
          end
      | Some m =>
          hit_of s m ::
          match s with
          | String c t =>
              match fst m with
              | 0 => Keep c :: scan r 0 t
              | S k => scan r k t
              end
          | "" => []
          end
      end
  end.

(** The text the pieces stand for. *)
Fixpoint covered (ps : list piece) : string :=
  match ps with
  | [] => ""
  | Keep c :: q => String c (covered q)
  | Hit t _ :: q => t ++ covered q
  end.

Definition is_hit (p : piece) : bool :=
  match p with Hit _ _ => true | Keep _ => false end.

Definition hit_text (p : piece) : string :=
  match p with Hit t _ => t | Keep c => String c "" end.

(** [re.findall(pattern, string)]: one element per match, left to right.
    The element is the text of the match, which is what Python returns for a
    pattern without groups (with groups it returns the group texts, still
    one element per match). *)
Definition findall (r : regex) (s : string) : list string :=
  map hit_text (filter is_hit (scan r 0 s)).

(** A replacement template: literal text and group references [\1], [\2]. *)
Inductive part : Type :=
| Text (s : string)
| Group (n : nat).

Definition template : Type := list part.

Definition expand_part (text : string) (groups : list string) (p : part) : string :=
  match p with
  | Text s => s
  | Group 0 => text
  | Group (S i) => nth i groups ""
  end.

Definition expand (tpl : template) (text : string) (groups : list string) : string :=
  String.concat "" (map (expand_part text groups) tpl).

Fixpoint join (tpl : template) (ps : list piece) : string :=
  match ps with
  | [] => ""
  | Keep c :: q => String c (join tpl q)
  | Hit t g :: q => expand tpl t g ++ join tpl q
  end.

(** [re.sub(pattern, repl, string)]: every match replaced by the expanded
    template, the rest of the text kept. *)
Definition sub (r : regex) (tpl : template) (s : string) : string :=
  join tpl (scan r 0 s).

(** Building patterns. *)
Definition lit (s : string) : regex := map (fun c => One (Lit c)) (list_ascii_of_string s).

(** The bracket class of the single and the double quote. *)
Definition quote : regex := [One (AnyOf ["'"%char; Str.dq])].

(** [\s*] *)
Definition spaces : regex := [Star Space].

Definition group (r : regex) : regex := Open :: (r ++ [Close])%list.

(** The pattern made of the given ones in sequence. *)
Definition seq (rs : list regex) : regex := List.concat rs.

End Re.

(** ** Console, file system and the effects of a script

    A script reads files, writes files and prints.  The world it runs in is
    the directory listing (every path with what is there, in the order the
    operating system enumerates it) and the log of what the script has done
    so far.  [open] raises [OSError]; nothing in the scripts catches it, so
    a raised error ends the run with the world as it was at that point.

    A text is a string of one-byte characters; a file whose bytes do not
    decode counts as one that cannot be read. *)

Module Sys.

(** One constructor per [print] statement of the scripts, carrying the
    values it interpolates; colours and wording are left out, and
    [FileModified] carries the path as found (the script prints it relative
    to the working directory). *)
Inductive line : Type :=
| Banner
| Mode (dry_run : bool)
| RootDir (root_dir : string)
| Rule80
| FilesFound (n : nat)
| FileModified (path : string)
| Change (change : string)
| SummaryTitle
| FilesScanned (n : nat)
| FilesModified (n : nat)
| TotalChanges (n : nat)
| ApplyHint
| ImportsFixed (path : string).

Record file : Type := mkFile {
  data : string;
  readable : bool;
  writable : bool
}.

Inductive node : Type :=
| Regular (f : file)
| Directory.

Inductive event : Type :=
| Reading (path : string)
| Writing (path : string) (content : string)
| Printing (l : line).

Record world : Type := mkWorld {
  disk : list (string * node);
  log : list event
}.

Inductive OSError : Type :=
| FileNotFoundError
| IsADirectoryError
| PermissionError.

Inductive outcome (A : Type) : Type :=
| Done (a : A) (w : world)
| Raised (e : OSError) (w : world).

Arguments Done {A} a w.
Arguments Raised {A} e w.

Definition IO (A : Type) : Type := world -> outcome A.

Definition ret {A : Type} (a : A) : IO A := fun w => Done a w.

Definition bind {A B : Type} (m : IO A) (k : A -> IO B) : IO B :=
  fun w =>
    match m w with
    | Done a w' => k a w'
    | Raised e w' => Raised e w'
    end.

Definition emit (ev : event) : IO unit :=
  fun w => Done tt (mkWorld (disk w) (log w ++ [ev])).

Definition print (l : line) : IO unit := emit (Printing l).

Fixpoint lookup (path : string) (d : list (string * node)) : option node :=
  match d with
  | [] => None
  | (p, n) :: d' => if String.eqb p path then Some n else lookup path d'
  end.

(** The listing with the file at [path] holding [content]; a path that is
    not listed yet is added at the end. *)
Fixpoint store (path : string) (content : string) (d : list (string * node))
    : list (string * node) :=
  match d with
  | [] => [(path, Regular (mkFile content true true))]
  | (p, n) :: d' =>
      if String.eqb p path then
        match n with
        | Regular f => (p, Regular (mkFile content (readable f) (writable f))) :: d'
        | Directory => (p, n) :: d'
        end
      else (p, n) :: store path content d'
  end.

(** [with open(path, 'r') as f: content = f.read()] *)
Definition read_text (path : string) : IO string :=
  fun w =>
    match lookup path (disk w) with
    | None => Raised FileNotFoundError w
    | Some Directory => Raised IsADirectoryError w
    | Some (Regular f) =>
        if readable f
        then Done (data f) (mkWorld (disk w) (log w ++ [Reading path]))
        else Raised PermissionError w
    end.

(** [with open(path, 'w') as f: f.write(content)] *)
Definition write_text (path : string) (content : string) : IO unit :=
  fun w =>
    match lookup path (disk w) with
    | Some Directory => Raised IsADirectoryError w
    | Some (Regular f) =>
        if writable f
        then Done tt (mkWorld (store path content (disk w))
                              (log w ++ [Writing path content]))
        else Raised PermissionError w
    | None =>
        Done tt (mkWorld (store path content (disk w))
                         (log w ++ [Writing path content]))
    end.

(** [Path(root_dir).rglob('*' + ext)]: every listed path under
    [Path(root_dir)] whose last component ends with [ext], in listing order.
    [rglob] looks at names only: it yields directories as well as files. *)
Definition rglob (root_dir ext : string) : IO (list string) :=
  fun w =>
    Done (filter (fun p => Pathlib.under root_dir p
                           && Str.endswith ext (Str.basename p))
                 (map fst (disk w)))
         w.

(** [os.walk(directory)] keeps [directory] as typed, and
    [os.path.join(root, file)] puts one ['/'] between the two unless
    [root] ends with one; nothing is walked from the empty text. *)
Definition walked (directory path : string) : bool :=
  negb (String.eqb directory "")
  && Str.startswith
       (if Str.endswith "/" directory then directory else directory ++ "/")
       path.

(** What the log says. *)
Definition is_write (ev : event) : bool :=
  match ev with Writing _ _ => true | _ => false end.

Definition writes (w : world) : list event := filter is_write (log w).

Definition printed (w : world) : list line :=
  flat_map (fun ev => match ev with Printing l => [l] | _ => [] end) (log w).

Definition reads (w : world) : list string :=
  flat_map (fun ev => match ev with Reading p => [p] | _ => [] end) (log w).

(** The world a run ends in, and the error it ends with. *)
Definition world_of {A : Type} (o : outcome A) : world :=
  match o with Done _ w => w | Raised _ w => w end.

Definition error_of {A : Type} (o : outcome A) : option OSError :=
  match o with Done _ _ => None | Raised e _ => Some e end.

End Sys.

Declare Scope io_scope.
Delimit Scope io_scope with io.
Notation "x <- m ;; k" := (Sys.bind m (fun x => k))
  (at level 61, m at next level, right associativity) : io_scope.
Notation "m ;;; k" := (Sys.bind m (fun _ => k))
  (at level 61, right associativity) : io_scope.

(** ** [fix_imports.py] *)

Module FixImports.

Import Re Sys.
Local Open Scope io_scope.

(** A row of the rule table: [(regex_pattern, replacement_template,
    description)].  No replacement of the table holds a backslash, so
    [re.sub] inserts it as it is. *)
Record rule : Type := mkRule {
  pattern : regex;
  replacement : string;
  description : string
}.

(** [from], a quote of either kind, the module path, a quote of either
    kind; and the same after [import { names }]. *)
Definition from_ (path : string) : regex :=
  seq [lit "from "; quote; lit path; quote].

Definition import_from (names path : string) : regex :=
  seq [lit "import { "; lit names; lit " } from "; quote; lit path; quote].

Definition from_q (path : string) : string := "from " ++ Str.quoted path.

Definition import_from_q (names path : string) : string :=
  "import { " ++ names ++ " } from " ++ Str.quoted path.

Definition IMPORT_RULES : list rule := [
  (* Firebase config, for the files under src/features *)
  mkRule (from_ "../lib/firebase/config")
         (from_q "../../../lib/firebase/config") "Firebase config (features)";
  mkRule (import_from "db" "../lib/firebase/config")
         (import_from_q "db" "../../../lib/firebase/config") "Firebase db import (features)";
  (* for the files under src/context *)
  mkRule (from_ "../../lib/firebase/config")
         (from_q "../../lib/firebase/config") "Firebase config (context)";
  mkRule (import_from "db" "../../lib/firebase/config")
         (import_from_q "db" "../../lib/firebase/config") "Firebase db import (context)";
  mkRule (import_from "db" "../../../lib/firebase/config")
         (from_q "../../lib/firebase/config") "Firebase db import (context)";
  (* Auth hooks *)
  mkRule (from_ "../hooks/useAuth")
         (from_q "../../../features/auth/hooks") "useAuth hook";
  mkRule (from_ "../../hooks/useAuth")
         (from_q "../../../features/auth/hooks") "useAuth hook";
  mkRule (from_ "../useAuth")
         (from_q "../../../features/auth/hooks") "useAuth hook";
  mkRule (from_ "./useAuth")
         (from_q "../../../features/auth/hooks") "useAuth hook";
  mkRule (import_from "useAuth" "../useAuth")
         (import_from_q "useAuth" "../../../features/auth/hooks") "useAuth import";
  mkRule (import_from "useAuth" "./useAuth")
         (import_from_q "useAuth" "../../../features/auth/hooks") "useAuth import";
  (* Planning hooks *)
  mkRule (from_ "../hooks/useDesiderata")
         (from_q "../../../features/planning/hooks/useDesiderata") "useDesiderata hook";
  mkRule (from_ "../../hooks/useDesiderata")
         (from_q "../../../features/planning/hooks/useDesiderata") "useDesiderata hook";
  mkRule (from_ "../useDesiderata")
         (from_q "../../../features/planning/hooks/useDesiderata") "useDesiderata hook";
  mkRule (from_ "./useDesiderata")
         (from_q "../../../features/planning/hooks/useDesiderata") "useDesiderata hook";
  mkRule (from_ "../hooks/useDesiderataState")
         (from_q "../../../features/planning/hooks/useDesiderataState") "useDesiderataState hook";
  mkRule (from_ "../../hooks/useDesiderataState")
         (from_q "../../../features/planning/hooks/useDesiderataState") "useDesiderataState hook";
  mkRule (from_ "../useDesiderataState")
         (from_q "../../../features/planning/hooks/useDesiderataState") "useDesiderataState hook";
  mkRule (from_ "./useDesiderataState")
         (from_q "../../../features/planning/hooks/useDesiderataState") "useDesiderataState hook";
  (* other hooks *)
  mkRule (from_ "../hooks/usePlanningPeriod")
         (from_q "../../../features/planning/hooks/usePlanningPeriod") "usePlanningPeriod hook";
  mkRule (from_ "../hooks/useShiftAssignments")
         (from_q "../../../features/planning/hooks/useShiftAssignments") "useShiftAssignments hook";
  mkRule (from_ "../hooks/useUserAssignments")
         (from_q "../../../features/users/hooks/useUserAssignments") "useUserAssignments hook";
  mkRule (from_ "../hooks/useCachedUserData")
         (from_q "../../../features/users/hooks/useCachedUserData") "useCachedUserData hook"
].

Definition FILE_EXTENSIONS : list string := [".ts"; ".tsx"; ".js"; ".jsx"].

(** [find_typescript_files]: one [rglob] per extension, the paths of each
    appended to [files] in the order [rglob] yields them. *)
Fixpoint collect (root_dir : string) (exts : list string) (files : list string)
    : IO (list string) :=
  match exts with
  | [] => ret files
  | ext :: exts' =>
      paths <- rglob root_dir ext ;;
      collect root_dir exts' (files ++ paths)
  end.

Definition find_typescript_files (root_dir : string) : IO (list string) :=
  collect root_dir FILE_EXTENSIONS [].

(** What a line of [changes] says: the rule that fired and the number of
    matches it had.  The script appends the formatted line; the model keeps
    the two values and formats them when [process_file] returns. *)
Record ChangeEntry : Type := mkChange {
  ruleDescription : string;
  occurrenceCount : nat
}.

Definition change_line (e : ChangeEntry) : string :=
  "- " ++ ruleDescription e ++ ": " ++ Str.of_nat (occurrenceCount e) ++ " occurrence(s)".

Section Engine.

(** The rule table is a module-level constant of the script; the engine is
    stated over any table so that the claims about rule tables can be. *)
Variable registry : list rule.

(** The transformation loop of [process_file]. *)
Fixpoint apply_rules (rules : list rule) (content : string)
    (changes : list ChangeEntry) : string * list ChangeEntry :=
  match rules with
  | [] => (content, changes)
  | r :: rules' =>
      let matches := findall (pattern r) content in
      match matches with
      | [] => apply_rules rules' content changes
      | _ :: _ =>
          let new_content := sub (pattern r) [Text (replacement r)] content in
          if negb (String.eqb new_content content) then
            apply_rules rules' new_content
              (changes ++ [mkChange (description r) (length matches)])
          else apply_rules rules' content changes
      end
  end.

Definition process_file (file_path : string) (dry_run : bool)
    : IO (bool * list string) :=
  content <- read_text file_path ;;
  let original_content := content in
  let '(content, changes) := apply_rules registry content [] in
  let changes := map change_line changes in
  if negb (String.eqb content original_content) && negb dry_run then
    write_text file_path content ;;;
    ret (true, changes)
  else
    ret (negb (String.eqb content original_content), changes).

Fixpoint print_changes (changes : list string) : IO unit :=
  match changes with
  | [] => ret tt
  | change :: changes' => print (Change change) ;;; print_changes changes'
  end.

(** The loop of [main] over the files found, with its two counters. *)
Fixpoint process_all (files : list string) (dry_run : bool)
    (modified_files total_changes : nat) : IO (nat * nat) :=
  match files with
  | [] => ret (modified_files, total_changes)
  | file_path :: files' =>
      r <- process_file file_path dry_run ;;
      let '(modified, changes) := r in
      if modified then
        print (FileModified file_path) ;;;
        print_changes changes ;;;
        process_all files' dry_run (modified_files + 1) (total_changes + length changes)
      else
        process_all files' dry_run modified_files total_changes
  end.

(** [main], with the two command-line arguments as parameters. *)
Definition main (root_dir : string) (dry_run : bool) : IO unit :=
  print Banner ;;;
  print (Mode dry_run) ;;;
  print (RootDir root_dir) ;;;
  print Rule80 ;;;
  files <- find_typescript_files root_dir ;;
  print (FilesFound (length files)) ;;;
  r <- process_all files dry_run 0 0 ;;
  let '(modified_files, total_changes) := r in
  print Rule80 ;;;
  print SummaryTitle ;;;
  print (FilesScanned (length files)) ;;;
  print (FilesModified modified_files) ;;;
  print (TotalChanges total_changes) ;;;
  if dry_run && (0 <? modified_files)%nat then print ApplyHint else ret tt.

End Engine.

End FixImports.

(** ** [fix_imports.py] over any rule table: the errors of [re]

    [re.findall] and [re.sub] compile the pattern they are given and raise
    [re.error] on one that does not compile.  The 23 patterns of
    [IMPORT_RULES] compile, so the engine above has no such error; a
    statement about every rule table needs it.  Nothing in the script
    catches [re.error], so it ends the run as an [OSError] does. *)

Module Exceptions.

Import Sys.

Inductive Exception : Type :=
| OSFailure (e : OSError)
| ReError.

Inductive result (A : Type) : Type :=
| Returned (a : A) (w : world)
| Thrown (e : Exception) (w : world).

Arguments Returned {A} a w.
Arguments Thrown {A} e w.

Definition Script (A : Type) : Type := world -> result A.

Definition unit_ {A : Type} (a : A) : Script A := fun w => Returned a w.

Definition then_ {A B : Type} (m : Script A) (k : A -> Script B) : Script B :=
  fun w =>
    match m w with
    | Returned a w' => k a w'
    | Thrown e w' => Thrown e w'
    end.

Definition raise {A : Type} (e : Exception) : Script A := fun w => Thrown e w.

(** A step that can only fail with an [OSError]. *)
Definition lift {A : Type} (m : IO A) : Script A :=
  fun w =>
    match m w with
    | Done a w' => Returned a w'
    | Raised e w' => Thrown (OSFailure e) w'
    end.

Definition end_world {A : Type} (r : result A) : world :=
  match r with Returned _ w => w | Thrown _ w => w end.

Definition exception_of {A : Type} (r : result A) : option Exception :=
  match r with Returned _ _ => None | Thrown e _ => Some e end.

End Exceptions.

Declare Scope script_scope.
Delimit Scope script_scope with script.
Notation "x <- m ;; k" := (Exceptions.then_ m (fun x => k))
  (at level 61, m at next level, right associativity) : script_scope.
Notation "m ;;; k" := (Exceptions.then_ m (fun _ => k))
  (at level 61, right associativity) : script_scope.

Module Checked.

Import Re Sys FixImports Exceptions.
Local Open Scope script_scope.

(** What [re.compile] refuses in the fragment: a parenthesis without its
    partner, and a bracket class with nothing in it. *)
Fixpoint balanced (opened : nat) (r : regex) : bool :=
  match r with
  | [] => (opened =? 0)%nat
  | Open :: r' => balanced (S opened) r'
  | Close :: r' =>
      match opened with
      | 0 => false
      | S k => balanced k r'
      end
  | _ :: r' => balanced opened r'
  end.

Definition class_ok (i : item) : bool :=
  match i with
  | One (AnyOf []) | Star (AnyOf []) => false
  | _ => true
  end.

Definition compiles (r : regex) : bool := balanced 0 r && forallb class_ok r.

(** A replacement without backslash is a template [re.sub] inserts as it
    is; with one, [re.sub] reads an escape or a group reference. *)
Definition literal (replacement : string) : bool :=
  (Str.count "092"%char replacement =? 0)%nat.

Section Engine.

Variable registry : list rule.

(** The transformation loop of [process_file]; [None] when [re.findall]
    raises [re.error]. *)
Fixpoint apply_rules (rules : list rule) (content : string)
    (changes : list ChangeEntry) : option (string * list ChangeEntry) :=
  match rules with
  | [] => Some (content, changes)
  | r :: rules' =>
      if compiles (pattern r) then
        let matches := findall (pattern r) content in
        match matches with
        | [] => apply_rules rules' content changes
        | _ :: _ =>
            let new_content := sub (pattern r) [Text (replacement r)] content in
            if negb (String.eqb new_content content) then
              apply_rules rules' new_content
                (changes ++ [mkChange (description r) (length matches)])
            else apply_rules rules' content changes
        end
      else None
  end.

Definition process_file (file_path : string) (dry_run : bool)
    : Script (bool * list string) :=
  content <- lift (read_text file_path) ;;
  let original_content := content in
  match apply_rules registry content [] with
  | None => raise ReError
  | Some (content, changes) =>
      let changes := map change_line changes in
      if negb (String.eqb content original_content) && negb dry_run then
        lift (write_text file_path content) ;;;
        unit_ (true, changes)
      else
        unit_ (negb (String.eqb content original_content), changes)
  end.

Fixpoint process_all (files : list string) (dry_run : bool)
    (modified_files total_changes : nat) : Script (nat * nat) :=
  match files with
  | [] => unit_ (modified_files, total_changes)
  | file_path :: files' =>
      r <- process_file file_path dry_run ;;
      let '(modified, changes) := r in
      if modified then
        lift (print (FileModified file_path)) ;;;
        lift (print_changes changes) ;;;
        process_all files' dry_run (modified_files + 1) (total_changes + length changes)
      else
        process_all files' dry_run modified_files total_changes
  end.

Definition main (root_dir : string) (dry_run : bool) : Script unit :=
  lift (print Banner) ;;;
  lift (print (Mode dry_run)) ;;;
  lift (print (RootDir root_dir)) ;;;
  lift (print Rule80) ;;;
  files <- lift (find_typescript_files root_dir) ;;
  lift (print (FilesFound (length files))) ;;;
  r <- process_all files dry_run 0 0 ;;
  let '(modified_files, total_changes) := r in
  lift (print Rule80) ;;;
  lift (print SummaryTitle) ;;;
  lift (print (FilesScanned (length files))) ;;;
  lift (print (FilesModified modified_files)) ;;;
  lift (print (TotalChanges total_changes)) ;;;
  if dry_run && (0 <? modified_files)%nat then lift (print ApplyHint) else unit_ tt.

End Engine.

End Checked.

(** ** [fix_planning_imports.py] *)

Module FixPlanningImports.

Import Re Sys.
Local Open Scope io_scope.

(** [from], a quote, the old module path in a group, a quote. *)
Definition from_group (path : string) : regex :=
  seq [lit "from "; quote; group (lit path); quote].

Definition from_text (path : string) : template :=
  [Text ("from " ++ Str.quoted path)].

Definition replacements : list (regex * template) := [
  (* contexts *)
  (from_group "../context/shiftExchange", from_text "../../../context/shiftExchange");
  (from_group "../context/planning/PlanningContext",
   from_text "../../../context/planning/PlanningContext");
  (* components *)
  (from_group "../components/common/Switch", from_text "../components/common/Switch");
  (from_group "../components/common/LoadingSpinner",
   from_text "../components/common/LoadingSpinner");
  (from_group "../components/planning/PlanningTutorial",
   from_text "../components/PlanningTutorial");
  (from_group "../components/Toast", from_text "../../../components/Toast");
  (seq [lit "import "; group [Star Dot]; lit " from "; quote;
        group (lit "../components/planning/GeneratedPlanningTable"); quote],
   [Text "import "; Group 1;
    Text (" from " ++ Str.quoted "../components/GeneratedPlanningTable")]);
  (* types *)
  (from_group "../types/planning", from_text "../types");
  (* utils *)
  (from_group "../utils/timeUtils", from_text "../utils/timeUtils");
  (from_group "../utils/lazyExporters", from_text "../utils/lazyExporters");
  (* Firebase *)
  (from_group "../lib/firebase/desiderata", from_text "../../../lib/firebase/desiderata")
].

Fixpoint apply_replacements (rs : list (regex * template)) (content : string) : string :=
  match rs with
  | [] => content
  | (pattern, replacement) :: rs' =>
      apply_replacements rs' (sub pattern replacement content)
  end.

Definition fix_imports (file_path : string) : IO unit :=
  content <- read_text file_path ;;
  let content := apply_replacements replacements content in
  write_text file_path content ;;;
  print (ImportsFixed file_path).

End FixPlanningImports.

(** ** [update_imports.py] *)

Module UpdateImports.

Import Re Sys.
Local Open Scope io_scope.

(** [import\s*{\s*useAuth\s*}\s*from\s*], a quote,
    [(.*/hooks/useAuth)], a quote. *)
Definition pattern : regex :=
  seq [lit "import"; spaces; lit "{"; spaces; lit "useAuth"; spaces; lit "}";
       spaces; lit "from"; spaces; quote;
       group (seq [[Star Dot]; lit "/hooks/useAuth"]); quote].

(** [depth = file_path.count('/') - 1], an integer that is negative for a
    path without separator. *)
Definition depth (file_path : string) : Z :=
  (Z.of_nat (Str.count "/"%char file_path) - 1)%Z.

(** ['../' * depth]: empty when [depth] is not positive. *)
Definition rel_path (file_path : string) : string :=
  Str.repeat "../" (Z.to_nat (depth file_path)).

Definition replacement (file_path : string) : string :=
  "import { useAuth } from '" ++ rel_path file_path ++ "features/auth/hooks'".

Definition new_content (file_path content : string) : string :=
  sub pattern [Text (replacement file_path)] content.

Definition update_imports_in_file (file_path : string) : IO bool :=
  content <- read_text file_path ;;
  let new_content := new_content file_path content in
  if negb (String.eqb new_content content) then
    write_text file_path new_content ;;;
    ret true
  else ret false.

End UpdateImports.

(** ** Statements the theorems are compared with *)

Module Spec.

Import Re Sys FixImports.

(** *** The Rule Applier as the specification words it

    For each rule in order: no match, go on; otherwise substitute every
    match, append one entry with the number of matches, go on with the
    rewritten content. *)
Fixpoint spec_apply (rules : list rule) (current : string)
    (changes : list ChangeEntry) : string * list ChangeEntry :=
  match rules with
  | [] => (current, changes)
  | r :: rules' =>
      match findall (pattern r) current with
      | [] => spec_apply rules' current changes
      | m :: ms =>
          spec_apply rules'
            (sub (pattern r) [Text (replacement r)] current)
            (changes ++ [mkChange (description r) (length (m :: ms))])
      end
  end.

(** The same as a relation between the state before and after the rules,
    with the case the script adds: a rule that matches but rewrites the
    content into itself records nothing. *)
Inductive Applies : list rule -> string -> list ChangeEntry ->
                    string -> list ChangeEntry -> Prop :=
| Applies_end : forall current changes,
    Applies [] current changes current changes
| Applies_no_match : forall r rules current changes current' changes',
    findall (pattern r) current = [] ->
    Applies rules current changes current' changes' ->
    Applies (r :: rules) current changes current' changes'
| Applies_unchanged : forall r rules current changes current' changes',
    findall (pattern r) current <> [] ->
    sub (pattern r) [Text (replacement r)] current = current ->
    Applies rules current changes current' changes' ->
    Applies (r :: rules) current changes current' changes'
| Applies_rewrite : forall r rules current changes current' changes',
    findall (pattern r) current <> [] ->
    sub (pattern r) [Text (replacement r)] current <> current ->
    Applies rules
      (sub (pattern r) [Text (replacement r)] current)
      (changes ++ [mkChange (description r) (length (findall (pattern r) current))])
      current' changes' ->
    Applies (r :: rules) current changes current' changes'.

(** *** Rule tables whose replacements never re-match

    As the specification words it: the text of a replacement holds no match
    of the rule's own pattern nor of an earlier rule's. *)
Fixpoint text_never_rematches (earlier rules : list rule) : bool :=
  match rules with
  | [] => true
  | r :: rules' =>
      forallb (fun e => match findall (pattern e) (replacement r) with
                        | [] => true
                        | _ :: _ => false
                        end)
              (earlier ++ [r])
      && text_never_rematches (earlier ++ [r]) rules'
  end.

(** As a property of what the substitution does to a content: it leaves no
    match of its own pattern, and brings no match of an earlier pattern
    into a content that had none. *)
Definition leaves_no_match (r : rule) : Prop :=
  forall s, findall (pattern r) (sub (pattern r) [Text (replacement r)] s) = [].

Definition brings_no_match (r e : rule) : Prop :=
  forall s, findall (pattern e) s = [] ->
            findall (pattern e) (sub (pattern r) [Text (replacement r)] s) = [].

Fixpoint never_rematches (earlier rules : list rule) : Prop :=
  match rules with
  | [] => True
  | r :: rules' =>
      leaves_no_match r
      /\ (forall e, In e earlier -> brings_no_match r e)
      /\ never_rematches (earlier ++ [r]) rules'
  end.

(** [s] with every [a] turned into [b]. *)
Fixpoint replace_char (a b : ascii) (s : string) : string :=
  match s with
  | "" => ""
  | String c t => String (if Ascii.eqb a c then b else c) (replace_char a b t)
  end.

(** A rule that turns one character into another. *)
Definition char_rule (a b : ascii) : rule :=
  mkRule [One (Lit a)] (String b "") "char".

End Spec.

(** ** The report of a run, as printed *)

Module Report.

Import Sys.

Definition header (root_dir : string) (dry_run : bool) (found : nat) : list line :=
  [Banner; Mode dry_run; RootDir root_dir; Rule80; FilesFound found].

Definition summary (scanned modified total : nat) : list line :=
  [Rule80; SummaryTitle; FilesScanned scanned; FilesModified modified;
   TotalChanges total].

Definition is_file_modified (l : line) : bool :=
  match l with FileModified _ => true | _ => false end.

Definition is_change (l : line) : bool :=
  match l with Change _ => true | _ => false end.

(** The world once the lines [ls] are printed. *)
Definition announce (w : world) (ls : list line) : world :=
  mkWorld (disk w) (log w ++ map Printing ls).

(** A path the scripts can read and write: a regular file with both
    permissions. *)
Definition usable (d : list (string * node)) (path : string) : bool :=
  match lookup path d with
  | Some (Regular f) => readable f && writable f
  | _ => false
  end.

End Report.

Module Discovery.

Import Sys FixImports.

(** What one [rglob] yields, and what [find_typescript_files] collects. *)
Definition matching (root_dir ext : string) (d : list (string * node)) : list string :=
  filter (fun p => Pathlib.under root_dir p && Str.endswith ext (Str.basename p))
         (map fst d).

Definition discovered (root_dir : string) (d : list (string * node)) : list string :=
  flat_map (fun ext => matching root_dir ext d) FILE_EXTENSIONS.

End Discovery.

Module Depth.

Import Re Sys UpdateImports.

(** The import [update_imports.py] writes for a prefix of [n] steps up. *)
Definition useAuth_import (n : nat) : string :=
  "import { useAuth } from '" ++ Str.repeat "../" n ++ "features/auth/hooks'".

(** The pieces of a search put back together, every match replaced by
    [text] whatever it was. *)
Fixpoint replace_hits (text : string) (ps : list piece) : string :=
  match ps with
  | [] => ""
  | Keep c :: q => String c (replace_hits text q)
  | Hit _ _ :: q => text ++ replace_hits text q
  end.

(** What the specification says a content becomes at a path: every match
    replaced by the import whose prefix is the step up repeated (number of
    separators of the path) minus one times. *)
Definition rewritten (file_path content : string) : string :=
  replace_hits (useAuth_import (Str.count "/" file_path - 1)) (scan pattern 0 content).

(** The text of the file at a path. *)
Definition content_of (d : list (string * node)) (path : string) : option string :=
  match lookup path d with
  | Some (Regular f) => Some (data f)
  | _ => None
  end.

End Depth.

(** ** Concrete inputs *)

Module Fixtures.

Import Re Sys FixImports Spec.

(** An import the third rule of the table matches and rewrites into itself. *)
Definition context_import : string := from_q "../../lib/firebase/config".

(** Two imports of the same hook. *)
Definition two_imports : string :=
  "import { a } from '../hooks/useAuth';
import { b } from '../hooks/useAuth';".

(** A rule whose replacement ends like its pattern. *)
Definition drop_a : rule := mkRule (lit "ab") "b" "drop a".

(** Two one-character rules. *)
Definition a_to_b : rule := char_rule "a" "b".
Definition c_to_d : rule := char_rule "c" "d".

(** An import of the hook [update_imports.py] looks for. *)
Definition hook_import : string := "import {useAuth} from '../../hooks/useAuth';".

(** A rule that produces what the sixth rule of the table matches. *)
Definition local_hook : rule :=
  mkRule (FixImports.from_ "./useAuth") (from_q "../hooks/useAuth") "local useAuth".
Definition hooks_rule : rule :=
  mkRule (FixImports.from_ "../hooks/useAuth")
         (from_q "../../../features/auth/hooks") "useAuth hook".

End Fixtures.

Module Worlds.

Import Re Sys FixImports Spec Fixtures.

Definition plain (content : string) : node := Regular (mkFile content true true).

(** One file with two imports of the same hook. *)
Definition one_file : world :=
  mkWorld [("src/a.ts", plain two_imports)] [].

(** A file that cannot be read, between two that can. *)
Definition locked_file : world :=
  mkWorld [("src/a.ts", plain two_imports);
           ("src/b.ts", Regular (mkFile two_imports false true));
           ("src/c.ts", plain two_imports)] [].

(** A rule whose pattern [x*] matches the empty text, and a file for it. *)
Definition zero_width : rule := mkRule [Star (Lit "x")] "-" "zero width".

Definition small_file : world :=
  mkWorld [("src/a.ts", plain "ab")] [].

(** A rule whose pattern opens a group and never closes it. *)
Definition unclosed : rule := mkRule [Open; One (Lit "a")] "b" "unclosed group".

(** A tree without script. *)
Definition style_sheet : world :=
  mkWorld [("src/a.css", plain "a")] [].

(** A file no substitution of [fix_planning_imports.py] touches. *)
Definition untouched : world :=
  mkWorld [("src/a.ts", plain "const x = 1;")] [].

(** A directory named like a script, beside a script. *)
Definition chart_js : world :=
  mkWorld [("src/chart.js", Directory);
           ("src/chart.js/index.js", plain "export {};");
           ("src/main.ts", plain "export {};")] [].

End Worlds.

(** ** The rest of [update_imports.py] *)

Module UpdateImportsScript.

Import Re Sys UpdateImports.
Local Open Scope io_scope.

(** [re.search(pattern, string)]: the leftmost match, if there is one. *)
Fixpoint search (r : regex) (s : string) {struct s} : option piece :=
  match match_at r s with
  | Some m => Some (hit_of s m)
  | None =>
      match s with
      | String _ t => search r t
      | "" => None
      end
  end.

Definition is_regular (n : node) : bool :=
  match n with Regular _ => true | Directory => false end.

(** [os.walk(directory)], flattened: the joined paths of the entries of the
    [files] lists, which are the entries below [directory] that are no
    directory, in listing order. *)
Definition walk_files (directory : string) : IO (list string) :=
  fun w =>
    Done (map fst (filter (fun e => walked directory (fst e) && is_regular (snd e))
                          (disk w)))
         w.

(** [file.endswith(('.ts', '.tsx'))], on the name of the file. *)
Definition is_typescript (file_path : string) : bool :=
  Str.endswith ".ts" (Str.basename file_path)
  || Str.endswith ".tsx" (Str.basename file_path).

(** The two nested loops of [find_files_with_import], over the walk. *)
Fixpoint collect_matching (paths : list string) (pattern : regex)
    (matching_files : list string) : IO (list string) :=
  match paths with
  | [] => ret matching_files
  | file_path :: paths' =>
      if is_typescript file_path then
        content <- read_text file_path ;;
        match search pattern content with
        | Some _ => collect_matching paths' pattern (matching_files ++ [file_path])
        | None => collect_matching paths' pattern matching_files
        end
      else collect_matching paths' pattern matching_files
  end.

Definition find_files_with_import (directory : string) (pattern : regex)
    : IO (list string) :=
  paths <- walk_files directory ;;
  collect_matching paths pattern [].

(** What [main] prints; the lines are returned, in order, when it
    completes. *)
Inductive message : Type :=
| Processing (file : string)
| Finished (updated_count : nat).

Fixpoint update_all (files : list string) (updated_count : nat)
    (out : list message) : IO (nat * list message) :=
  match files with
  | [] => ret (updated_count, out)
  | file :: files' =>
      let out := out ++ [Processing file] in
      updated <- update_imports_in_file file ;;
      if updated then update_all files' (updated_count + 1) out
      else update_all files' updated_count out
  end.

Definition main : IO (list message) :=
  files <- find_files_with_import "src" pattern ;;
  r <- update_all files 0 [] ;;
  let '(updated_count, out) := r in
  ret (out ++ [Finished updated_count]).

End UpdateImportsScript.

(** ** The entry point of [fix_planning_imports.py] *)

Module PlanningScript.

Import Re Sys FixPlanningImports.
Local Open Scope io_scope.

(** [os.path.exists(path)]: true of files and of directories. *)
Definition path_exists (path : string) : IO bool :=
  fun w =>
    Done (match lookup path (disk w) with Some _ => true | None => false end) w.

(** The two messages of the entry point; the one printed is returned. *)
Inductive message : Type :=
| Usage
| NoSuchFile (file_path : string).

(** The block under [if __name__ == "__main__"], [argv] being [sys.argv]. *)
Definition script (argv : list string) : IO (option message) :=
  match argv with
  | _ :: file_path :: _ =>
      found <- path_exists file_path ;;
      if found then fix_imports file_path ;;; ret None
      else ret (Some (NoSuchFile file_path))
  | _ => ret (Some Usage)
  end.

End PlanningScript.

(** ** What a run may and may not change *)

Module Shape.

Import Re Sys.

(** What an entry is apart from its content: a directory, or a file with
    its two permissions. *)
Definition kind (n : node) : option (bool * bool) :=
  match n with
  | Regular f => Some (readable f, writable f)
  | Directory => None
  end.

(** The listing without the contents: the paths, in order, each with the
    kind of its entry. *)
Definition shape (d : list (string * node)) : list (string * option (bool * bool)) :=
  map (fun e => (fst e, kind (snd e))) d.

(** A pattern made of single atoms only. *)
Definition is_one (i : item) : bool :=
  match i with One _ => true | _ => false end.

End Shape.

(** ** What [find_files_with_import] looks at *)

Module Candidates.

Import Re Sys UpdateImportsScript.

(** The files the walk meets whose name ends in [.ts] or [.tsx]. *)
Definition candidates (directory : string) (d : list (string * node)) : list string :=
  filter is_typescript
    (map fst (filter (fun e => walked directory (fst e) && is_regular (snd e)) d)).

Definition can_read (d : list (string * node)) (path : string) : bool :=
  match lookup path d with
  | Some (Regular f) => readable f
  | _ => false
  end.

(** The file at [path] holds a match of [pattern]. *)
Definition holds_match (pattern : regex) (d : list (string * node)) (path : string) : bool :=
  match lookup path d with
  | Some (Regular f) =>
      match findall pattern (data f) with
      | [] => false
      | _ :: _ => true
      end
  | _ => false
  end.

End Candidates.

Module MoreWorlds.

Import Sys Fixtures Worlds.

(** Three scripts, two of which import the hook, a stylesheet and a
    directory named like a script. *)
Definition hooks_tree : world :=
  mkWorld [("src/a.ts", plain hook_import);
           ("src/b.ts", plain "export {};");
           ("src/pages", Directory);
           ("src/pages/c.tsx", plain hook_import);
           ("src/pages/c.css", plain hook_import);
           ("src/old.ts", Directory);
           ("src/old.ts/d.js", plain hook_import)] [].

(** A file that changes and a file that does not. *)
Definition two_files : world :=
  mkWorld [("src/a.ts", plain two_imports); ("src/b.ts", plain "x")] [].

(** A script that imports the hook, and one that cannot be read. *)
Definition locked_hooks : world :=
  mkWorld [("src/a.ts", plain hook_import);
           ("src/z.ts", Regular (mkFile "export {};" false true))] [].

End MoreWorlds.

(* ===================================================================== *)
(** * Part II: theorems *)
(* ===================================================================== *)

(** ** The matcher and the search loop *)

Module Matcher.

Import Re.

(** A match ends where it started or later, and within the text. *)
Lemma star_then_bound k rest : forall pos s w caps,
  (forall pos' s' w' caps', rest pos' s' = Some (w', caps') ->
     pos' <= w' /\ w' - pos' <= String.length s') ->
  star_then k rest pos s = Some (w, caps) ->
  pos <= w /\ w - pos <= String.length s.
Proof.
  intros pos s. revert pos.
  induction s as [|c t IH]; intros pos w caps Hrest H; cbn [star_then] in H.
  - now apply Hrest in H.
  - destruct (accepts k c).
    + destruct (star_then k rest (S pos) t) as [m|] eqn:E.
      * injection H as ->. apply IH in E; [|assumption]. cbn [String.length]. lia.
      * now apply Hrest in H.
    + now apply Hrest in H.
Qed.

Lemma match_here_bound r : forall pos opened caps s w caps',
  match_here r pos opened caps s = Some (w, caps') ->
  pos <= w /\ w - pos <= String.length s.
Proof.
  induction r as [|i r IH]; intros pos opened caps s w caps' H; cbn [match_here] in H.
  - injection H as <- _. lia.
  - destruct i as [k|k| |].
    + destruct s as [|c t]; [discriminate|].
      destruct (accepts k c); [|discriminate].
      apply IH in H. cbn [String.length]. lia.
    + apply star_then_bound in H; [assumption|].
      intros pos' s' w' caps''. apply IH.
    + now apply IH in H.
    + destruct opened; now apply IH in H.
Qed.

Lemma match_at_bound r s w caps :
  match_at r s = Some (w, caps) -> w <= String.length s.
Proof. intros H%match_here_bound. lia. Qed.

Lemma substring_drop n : forall s,
  n <= String.length s -> (substring 0 n s ++ Str.drop n s)%string = s.
Proof.
  induction n as [|n IH]; intros [|c t] H; cbn in *; try reflexivity; try lia.
  f_equal. apply IH. lia.
Qed.

(** The pieces of a search cover the text: put back together with the
    matches as they were, they give the text back. *)
Lemma covered_scan r : forall s skip,
  skip <= String.length s -> covered (scan r skip s) = Str.drop skip s.
Proof.
  induction s as [|c t IH]; intros skip H.
  - cbn in H. assert (skip = 0) as -> by lia. cbn [scan].
    destruct (match_at r "") as [[w caps]|] eqn:E; [|reflexivity].
    apply match_at_bound in E. cbn in E. assert (w = 0) as -> by lia. reflexivity.
  - destruct skip as [|k].
    + cbn [scan Str.drop].
      destruct (match_at r (String c t)) as [[w caps]|] eqn:E.
      * apply match_at_bound in E. cbn [String.length] in E.
        cbn [covered hit_of fst]. destruct w as [|w].
        -- cbn [covered]. rewrite IH by lia. reflexivity.
        -- rewrite IH by lia. cbn [substring]. cbn. f_equal. apply substring_drop. lia.
      * cbn [covered]. rewrite IH by lia. reflexivity.
    + cbn [scan Str.drop]. apply IH. cbn in H. lia.
Qed.

Lemma covered_scan_all r s : covered (scan r 0 s) = s.
Proof. apply (covered_scan r s 0). lia. Qed.

(** The matcher finds a match whenever there is one. *)
Lemma match_here_complete r s w :
  Matches r s w ->
  forall pos opened caps, exists m, match_here r pos opened caps s = Some m.
Proof.
  induction 1 as [s|k r c t w Hk _ IH|k r s w _ IH|k r c t w Hk _ IH|r s w _ IH|r s w _ IH];
    intros pos opened caps; cbn [match_here].
  - eauto.
  - rewrite Hk. apply IH.
  - destruct (IH pos opened caps) as [m Hm].
    destruct s as [|c t]; cbn [star_then]; [eauto|].
    destruct (accepts k c); [|eauto].
    destruct (star_then _ _ _ _); eauto.
  - cbn [star_then]. rewrite Hk.
    destruct (IH (S pos) opened caps) as [m Hm]. cbn [match_here] in Hm.
    rewrite Hm. eauto.
  - apply IH.
  - destruct opened; apply IH.
Qed.

(** When the match the matcher prefers is empty, every match at that place
    is: this is why the search moves on by one character after it. *)
Lemma empty_match_only r s w :
  Matches r s w ->
  forall pos opened caps caps',
    match_here r pos opened caps s = Some (pos, caps') -> w = 0.
Proof.
  induction 1 as [s|k r c t w Hk _ IH|k r s w _ IH|k r c t w Hk HM IH|r s w _ IH|r s w _ IH];
    intros pos opened caps caps' E; cbn [match_here] in E.
  - reflexivity.
  - rewrite Hk in E. apply match_here_bound in E. lia.
  - destruct s as [|c t]; cbn [star_then] in E; [now apply IH in E|].
    destruct (accepts k c); [|now apply IH in E].
    destruct (star_then _ _ (S pos) t) as [m|] eqn:S1; [|now apply IH in E].
    injection E as ->.
    apply star_then_bound in S1; [lia|]. intros ? ? ? ?. apply match_here_bound.
  - cbn [star_then] in E. rewrite Hk in E.
    destruct (match_here_complete _ _ _ HM (S pos) opened caps) as [[w' c'] Hm].
    cbn [match_here] in Hm. rewrite Hm in E. injection E as -> ->.
    apply star_then_bound in Hm; [lia|]. intros ? ? ? ?. apply match_here_bound.
  - now apply IH in E.
  - destruct opened; now apply IH in E.
Qed.

(** What the matcher returns is a match. *)
Lemma match_here_sound r : forall pos opened caps s w caps',
  match_here r pos opened caps s = Some (w, caps') -> Matches r s (w - pos).
Proof.
  induction r as [|i r IH]; intros pos opened caps s w caps' H; cbn [match_here] in H.
  - injection H as <- _. rewrite Nat.sub_diag. constructor.
  - destruct i as [k|k| |].
    + destruct s as [|c t]; [discriminate|].
      destruct (accepts k c) eqn:Hk; [|discriminate].
      pose proof (match_here_bound _ _ _ _ _ _ _ H) as [Hle _].
      apply IH in H. replace (w - pos) with (S (w - S pos)) by lia.
      now constructor.
    + revert pos H. induction s as [|c t IHs]; intros pos H; cbn [star_then] in H.
      * apply Matches_star_stop. now apply IH in H.
      * destruct (accepts k c) eqn:Hk; [|apply Matches_star_stop; now apply IH in H].
        destruct (star_then _ _ (S pos) t) as [m|] eqn:E;
          [|apply Matches_star_stop; now apply IH in H].
        injection H as ->.
        assert (S pos <= w).
        { apply star_then_bound in E; [lia|]. intros ? ? ? ?. apply match_here_bound. }
        replace (w - pos) with (S (w - S pos)) by lia.
        apply Matches_star_more; [assumption|]. now apply IHs.
    + apply Matches_open. now apply IH in H.
    + apply Matches_close. destruct opened; now apply IH in H.
Qed.

Lemma match_at_sound r s w caps :
  match_at r s = Some (w, caps) -> Matches r s w.
Proof. intros H%match_here_sound. now rewrite Nat.sub_0_r in H. Qed.

Lemma match_at_complete r s w :
  Matches r s w -> exists m, match_at r s = Some m.
Proof. intros H. apply (match_here_complete r s w H). Qed.

Lemma match_at_empty_only r s caps w :
  match_at r s = Some (0, caps) -> Matches r s w -> w = 0.
Proof. intros E H. apply (empty_match_only r s w H 0 [] [] caps E). Qed.

End Matcher.

(** ** The transformation loop *)

Module RuleApplier.

Import Re Sys FixImports Spec Fixtures.

(** One step of the loop, by cases on the matches and on the rewrite. *)
Lemma apply_rules_no_match r rules content changes :
  findall (pattern r) content = [] ->
  apply_rules (r :: rules) content changes = apply_rules rules content changes.
Proof. intros H. simpl. now rewrite H. Qed.

Lemma apply_rules_unchanged r rules content changes :
  sub (pattern r) [Text (replacement r)] content = content ->
  apply_rules (r :: rules) content changes = apply_rules rules content changes.
Proof.
  intros H. simpl. rewrite H, String.eqb_refl. simpl.
  now destruct (findall (pattern r) content).
Qed.

Lemma apply_rules_rewrite r rules content changes :
  findall (pattern r) content <> [] ->
  sub (pattern r) [Text (replacement r)] content <> content ->
  apply_rules (r :: rules) content changes =
  apply_rules rules (sub (pattern r) [Text (replacement r)] content)
    (changes ++ [mkChange (description r) (length (findall (pattern r) content))]).
Proof.
  intros Hm Hs. simpl.
  destruct (findall (pattern r) content) as [|m ms] eqn:E; [congruence|].
  apply String.eqb_neq in Hs. now rewrite Hs.
Qed.

Lemma apply_rules_Applies rules : forall content changes,
  Applies rules content changes
    (fst (apply_rules rules content changes))
    (snd (apply_rules rules content changes)).
Proof.
  induction rules as [|r rules IH]; intros content changes.
  - constructor.
  - destruct (findall (pattern r) content) as [|m ms] eqn:E.
    + rewrite apply_rules_no_match by assumption.
      now apply Applies_no_match.
    + destruct (String.eqb_spec (sub (pattern r) [Text (replacement r)] content) content) as [Hs|Hs].
      * rewrite apply_rules_unchanged by assumption.
        apply Applies_unchanged; [congruence | assumption | apply IH].
      * rewrite apply_rules_rewrite by congruence.
        apply Applies_rewrite; [congruence | assumption | apply IH].
Qed.

Lemma Applies_apply_rules rules content changes content' changes' :
  Applies rules content changes content' changes' ->
  apply_rules rules content changes = (content', changes').
Proof.
  induction 1.
  - reflexivity.
  - now rewrite apply_rules_no_match.
  - now rewrite apply_rules_unchanged.
  - now rewrite apply_rules_rewrite.
Qed.

(** A content no rule matches goes through the loop untouched. *)
Lemma apply_rules_noop rules : forall content changes,
  (forall r, In r rules -> findall (pattern r) content = []) ->
  apply_rules rules content changes = (content, changes).
Proof.
  induction rules as [|r rules IH]; intros content changes H; [reflexivity|].
  rewrite apply_rules_no_match by (apply H; now left).
  apply IH. intros r' Hr'. apply H. now right.
Qed.

(** The entries already recorded are kept, in front. *)
Lemma apply_rules_changes rules : forall content changes,
  apply_rules rules content changes =
  (fst (apply_rules rules content []), changes ++ snd (apply_rules rules content [])).
Proof.
  induction rules as [|r rules IH]; intros content changes.
  - simpl. now rewrite app_nil_r.
  - simpl. destruct (findall (pattern r) content) as [|m ms]; [apply IH|].
    destruct (negb _); [|apply IH].
    rewrite IH. rewrite (IH _ [_]). simpl. now rewrite <- app_assoc.
Qed.

Lemma spec_apply_agrees registry : forall content changes,
  (forall r s, In r registry -> findall (pattern r) s <> [] ->
               sub (pattern r) [Text (replacement r)] s <> s) ->
  apply_rules registry content changes = spec_apply registry content changes.
Proof.
  induction registry as [|r rules IH]; intros content changes H; [reflexivity|].
  destruct (findall (pattern r) content) as [|m ms] eqn:E.
  - rewrite apply_rules_no_match by assumption. simpl. rewrite E.
    apply IH. intros; apply H; [now right | assumption].
  - rewrite apply_rules_rewrite.
    + simpl. rewrite E. apply IH. intros; apply H; [now right | assumption].
    + congruence.
    + apply H; [now left | congruence].
Qed.

Example scenario_two_occurrences :
  snd (apply_rules IMPORT_RULES two_imports []) = [mkChange "useAuth hook" 2].
Proof. vm_compute. reflexivity. Qed.

(** Every entry counts at least one match, and no rule adds more than one
    entry. *)
Lemma apply_rules_entries rules : forall content changes,
  Forall (fun e => 1 <= occurrenceCount e) changes ->
  Forall (fun e => 1 <= occurrenceCount e) (snd (apply_rules rules content changes))
  /\ length (snd (apply_rules rules content changes)) <= length changes + length rules.
Proof.
  induction rules as [|r rules IH]; intros content changes H.
  - cbn. split; [assumption | lia].
  - destruct (findall (pattern r) content) as [|m ms] eqn:E.
    + rewrite apply_rules_no_match by assumption.
      destruct (IH content changes H) as [H1 H2]. split; [assumption | cbn; lia].
    + destruct (String.eqb_spec (sub (pattern r) [Text (replacement r)] content) content)
        as [Hs|Hs].
      * rewrite apply_rules_unchanged by assumption.
        destruct (IH content changes H) as [H1 H2]. split; [assumption | cbn; lia].
      * rewrite apply_rules_rewrite by congruence. rewrite E.
        destruct (IH (sub (pattern r) [Text (replacement r)] content)
                     (changes ++ [mkChange (description r) (length (m :: ms))])) as [H1 H2].
        { apply Forall_app. split; [assumption|]. constructor; [cbn; lia | constructor]. }
        split; [assumption|]. rewrite length_app in H2. cbn in *. lia.
Qed.

(** C1 (amended).  For every rule table and content, the loop of
    [process_file] starts from the content with no entry and takes the rules
    in order, each on the content the rules before it left: a rule with no
    match, or whose substitution gives back the content it was given, leaves
    content and entries as they are; a rule with a match whose substitution
    changes the content replaces every match and appends one entry with its
    description and the number of its matches.  [apply_rules] returns a pair
    exactly when it is the one [Applies] relates to the start; it returns at
    most one entry per rule, each with a count of at least one. *)
Theorem C1_rule_applier registry content content' changes' :
  (Applies registry content [] content' changes' <->
   apply_rules registry content [] = (content', changes'))
  /\ length (snd (apply_rules registry content [])) <= length registry
  /\ Forall (fun e => 1 <= occurrenceCount e) (snd (apply_rules registry content [])).
Proof.
  split; [split|].
  - apply Applies_apply_rules.
  - intros H. pose proof (apply_rules_Applies registry content []) as HA.
    now rewrite H in HA.
  - destruct (apply_rules_entries registry content [] (Forall_nil _)) as [H1 H2].
    split; assumption.
Qed.

(** C1 as stated fails on the table of the script: on an import the third
    rule rewrites into itself the rule has a match, the specification's
    loop records an entry for it, the script records none. *)
Lemma C1_counterexample :
  findall (FixImports.from_ "../../lib/firebase/config") context_import = [context_import]
  /\ apply_rules IMPORT_RULES context_import [] = (context_import, [])
  /\ spec_apply IMPORT_RULES context_import []
     = (context_import, [mkChange "Firebase config (context)" 1])
  /\ apply_rules IMPORT_RULES context_import [] <> spec_apply IMPORT_RULES context_import [].
Proof.
  repeat split; try (vm_compute; reflexivity).
  vm_compute. discriminate.
Qed.

(** C8.  There are two rules [A] and [B], the replacement of [A] holding a
    match of the pattern of [B], and a content on which the table [A; B]
    and the table [B; A] give different results. *)
Theorem C8_order_sensitivity :
  exists A B content,
    findall (pattern B) (replacement A) <> []
    /\ apply_rules [A; B] content []
       = (from_q "../../../features/auth/hooks",
          [mkChange (description A) 1; mkChange (description B) 1])
    /\ apply_rules [B; A] content []
       = (from_q "../hooks/useAuth", [mkChange (description A) 1])
    /\ fst (apply_rules [A; B] content []) <> fst (apply_rules [B; A] content []).
Proof.
  exists local_hook, hooks_rule, "from './useAuth'".
  repeat split; try (vm_compute; reflexivity); vm_compute; discriminate.
Qed.

End RuleApplier.

(** ** A second application of the rules *)

Module Idempotence.

Import Re Sys FixImports Spec Fixtures RuleApplier.

(** After the rules [earlier], none of which matches any more, the rules
    [rules] leave a content none of [earlier ++ rules] matches. *)
Lemma apply_rules_settles rules : forall earlier content changes,
  never_rematches earlier rules ->
  (forall e, In e earlier -> findall (pattern e) content = []) ->
  forall r, In r (earlier ++ rules) ->
    findall (pattern r) (fst (apply_rules rules content changes)) = [].
Proof.
  induction rules as [|r rules IH]; intros earlier content changes Hn He x Hx.
  - rewrite app_nil_r in Hx. simpl. now apply He.
  - destruct Hn as (Hself & Hothers & Hrest).
    replace (earlier ++ r :: rules) with ((earlier ++ [r]) ++ rules) in Hx
      by (now rewrite <- app_assoc).
    destruct (findall (pattern r) content) as [|m ms] eqn:E.
    + rewrite apply_rules_no_match by assumption.
      apply (IH (earlier ++ [r])); try assumption.
      intros e [H|[<-|[]]]%in_app_or; [now apply He | assumption].
    + destruct (String.eqb_spec (sub (pattern r) [Text (replacement r)] content) content)
        as [Hs|Hs].
      * specialize (Hself content). rewrite Hs in Hself. congruence.
      * rewrite apply_rules_rewrite by congruence.
        apply (IH (earlier ++ [r])); try assumption.
        intros e [H|[<-|[]]]%in_app_or.
        -- apply Hothers; [assumption | now apply He].
        -- apply Hself.
Qed.

(** The search loop on a one-character pattern. *)
Lemma match_at_char a c t :
  match_at [One (Lit a)] (String c t) = if Ascii.eqb a c then Some (1, []) else None.
Proof. unfold match_at. simpl. now destruct (Ascii.eqb a c). Qed.

Lemma sub_char a b s :
  sub [One (Lit a)] [Text (String b "")] s = replace_char a b s.
Proof.
  unfold sub. induction s as [|c t IH]; [reflexivity|].
  cbn [scan replace_char]. rewrite match_at_char.
  destruct (Ascii.eqb a c); cbn [fst join].
  - unfold hit_of. cbn [join expand map expand_part String.concat].
    rewrite IH. reflexivity.
  - now rewrite IH.
Qed.

Lemma findall_char_absent a s :
  Str.count a s = 0 -> findall [One (Lit a)] s = [].
Proof.
  unfold findall. induction s as [|c t IH]; [reflexivity|].
  cbn [Str.count scan]. rewrite match_at_char, (Ascii.eqb_sym a c).
  destruct (Ascii.eqb c a); [discriminate|]. intros H. now apply IH.
Qed.

Lemma findall_char_present a s :
  findall [One (Lit a)] s = [] -> Str.count a s = 0.
Proof.
  unfold findall. induction s as [|c t IH]; [reflexivity|].
  cbn [Str.count scan]. rewrite match_at_char, (Ascii.eqb_sym a c).
  destruct (Ascii.eqb c a); [discriminate|]. intros H. now apply IH.
Qed.

Lemma count_replace_char a b e s :
  b <> e -> (a = e \/ Str.count e s = 0) -> Str.count e (replace_char a b s) = 0.
Proof.
  intros Hb H. induction s as [|c t IH]; [reflexivity|].
  cbn [replace_char Str.count] in *.
  destruct (Ascii.eqb_spec a c) as [->|Hac].
  - destruct (Ascii.eqb_spec b e); [congruence|].
    apply IH. destruct H as [H|H]; [now left|].
    right. destruct (Ascii.eqb c e); [discriminate | exact H].
  - destruct (Ascii.eqb_spec c e) as [->|Hce].
    + destruct H as [H|H]; [congruence | discriminate].
    + apply IH. destruct H as [H|H]; [now left | now right].
Qed.

Lemma char_rule_leaves_no_match a b : a <> b -> leaves_no_match (char_rule a b).
Proof.
  intros H s. cbn [char_rule pattern replacement]. rewrite sub_char.
  apply findall_char_absent, count_replace_char; [congruence | now left].
Qed.

Lemma char_rule_brings_no_match a b e f :
  b <> e -> brings_no_match (char_rule a b) (char_rule e f).
Proof.
  intros H s Hs. cbn [char_rule pattern replacement] in *. rewrite sub_char.
  apply findall_char_absent, count_replace_char; [assumption|].
  right. now apply findall_char_present.
Qed.

(** C7 (amended).  For every rule table in which each rule's substitution
    leaves no match of its own pattern and brings no match of an earlier
    rule's pattern into a content that had none, and for every content, the
    result of a first application holds no match of any rule, and a second
    application returns it unchanged with no entry. *)
Theorem C7_second_pass_is_noop registry content :
  never_rematches [] registry ->
  (forall r, In r registry ->
     findall (pattern r) (fst (apply_rules registry content [])) = [])
  /\ apply_rules registry (fst (apply_rules registry content [])) []
     = (fst (apply_rules registry content []), []).
Proof.
  intros H.
  assert (Hno : forall r, In r registry ->
            findall (pattern r) (fst (apply_rules registry content [])) = []).
  { intros r Hr. apply (apply_rules_settles registry [] content []); auto.
    intros e []. }
  split; [exact Hno | now apply apply_rules_noop].
Qed.

(** The hypothesis of C7 holds of two one-character rules. *)
Lemma C7_second_pass_is_noop_witness :
  never_rematches [] [a_to_b; c_to_d]
  /\ apply_rules [a_to_b; c_to_d] (fst (apply_rules [a_to_b; c_to_d] "cab" [])) []
     = ("dbb", []).
Proof.
  assert (H : never_rematches [] [a_to_b; c_to_d]).
  { cbn [never_rematches app]. repeat split.
    - apply char_rule_leaves_no_match. discriminate.
    - intros e [].
    - apply char_rule_leaves_no_match. discriminate.
    - intros e [<-|[]]. apply char_rule_brings_no_match. discriminate. }
  split; [exact H|].
  exact (proj2 (C7_second_pass_is_noop [a_to_b; c_to_d] "cab" H)).
Defined.

(** C7 as stated fails: the replacement [b] holds no match of [ab], yet
    after [aab] became [ab] the rule matches again and a second application
    rewrites it to [b]. *)
Lemma C7_counterexample :
  text_never_rematches [] [drop_a] = true
  /\ apply_rules [drop_a] "aab" [] = ("ab", [mkChange "drop a" 1])
  /\ findall (pattern drop_a) "ab" = ["ab"]
  /\ apply_rules [drop_a] "ab" [] = ("b", [mkChange "drop a" 1]).
Proof. repeat split; vm_compute; reflexivity. Qed.

End Idempotence.

(** ** What the scripts do to the world *)

Module Effects.

Import Re Sys FixImports Spec Report.

Lemma bind_Done {A B} (m : IO A) (k : A -> IO B) w a w' :
  m w = Done a w' -> bind m k w = k a w'.
Proof. unfold bind. now intros ->. Qed.

Lemma printed_app w evs :
  printed (mkWorld (disk w) (log w ++ evs))
  = printed w ++ flat_map (fun ev => match ev with Printing l => [l] | _ => [] end) evs.
Proof. unfold printed. cbn [log]. apply flat_map_app. Qed.

Lemma announce_nil w : announce w [] = w.
Proof. unfold announce. cbn. rewrite app_nil_r. now destruct w. Qed.

Lemma announce_app w ls ls' : announce (announce w ls) ls' = announce w (ls ++ ls').
Proof. unfold announce. cbn. now rewrite map_app, app_assoc. Qed.

Lemma printed_announce w ls : printed (announce w ls) = printed w ++ ls.
Proof.
  unfold announce. rewrite printed_app. f_equal.
  induction ls as [|l ls IH]; [reflexivity|]. cbn. now rewrite IH.
Qed.

Lemma print_announce l w : print l w = Done tt (announce w [l]).
Proof. reflexivity. Qed.

Lemma print_changes_announce changes : forall w,
  print_changes changes w = Done tt (announce w (map Change changes)).
Proof.
  induction changes as [|c cs IH]; intros w.
  - cbn. now rewrite announce_nil.
  - cbn [print_changes]. rewrite (bind_Done _ _ _ _ _ (print_announce _ _)).
    rewrite IH, announce_app. reflexivity.
Qed.

(** [read_text] and [write_text], by cases. *)
Lemma read_text_Done path w content w' :
  read_text path w = Done content w' ->
  w' = mkWorld (disk w) (log w ++ [Reading path]).
Proof.
  unfold read_text. destruct (lookup path (disk w)) as [[f|]|]; try discriminate.
  destruct (readable f); [|discriminate]. now intros [= _ <-].
Qed.

Lemma read_text_Raised path w e w' :
  read_text path w = Raised e w' -> w' = w.
Proof.
  unfold read_text. destruct (lookup path (disk w)) as [[f|]|]; try (now intros [= _ <-]).
  destruct (readable f); [discriminate | now intros [= _ <-]].
Qed.

Lemma write_text_Done path content w w' :
  write_text path content w = Done tt w' ->
  w' = mkWorld (store path content (disk w)) (log w ++ [Writing path content]).
Proof.
  unfold write_text. destruct (lookup path (disk w)) as [[f|]|]; try discriminate.
  - destruct (writable f); [|discriminate]. now intros [= <-].
  - now intros [= <-].
Qed.

Lemma write_text_Raised path content w e w' :
  write_text path content w = Raised e w' -> w' = w.
Proof.
  unfold write_text. destruct (lookup path (disk w)) as [[f|]|]; try (now intros [= _ <-]).
  destruct (writable f); [discriminate | now intros [= _ <-]].
Qed.

(** [process_file] is: read, transform, write when told and needed. *)
Lemma process_file_unfold registry path dry w :
  process_file registry path dry w =
  match read_text path w with
  | Raised e w' => Raised e w'
  | Done content w1 =>
      let new := fst (apply_rules registry content []) in
      let changes := map change_line (snd (apply_rules registry content [])) in
      if negb (String.eqb new content) && negb dry then
        match write_text path new w1 with
        | Done _ w2 => Done (true, changes) w2
        | Raised e w2 => Raised e w2
        end
      else Done (negb (String.eqb new content), changes) w1
  end.
Proof.
  unfold process_file, bind. destruct (read_text path w) as [content w1|e w1]; [|reflexivity].
  destruct (apply_rules registry content []) as [new changes]. cbn [fst snd].
  destruct (negb (String.eqb new content) && negb dry); [|reflexivity].
  now destruct (write_text path new w1).
Qed.

(** [process_file] prints nothing, whether it returns or raises. *)
Lemma process_file_Done_printed registry path dry w r w' :
  process_file registry path dry w = Done r w' -> printed w' = printed w.
Proof.
  rewrite process_file_unfold.
  destruct (read_text path w) as [content w1|e w1] eqn:R; [|discriminate].
  apply read_text_Done in R. subst w1. cbn zeta.
  destruct (negb _ && negb dry).
  - destruct (write_text _ _ _) as [[] w2|e w2] eqn:W; [|discriminate].
    apply write_text_Done in W. intros [= _ <-]. subst w2.
    unfold printed. cbn [log disk]. rewrite !flat_map_app. cbn. now rewrite !app_nil_r.
  - intros [= _ <-]. unfold printed. cbn [log]. rewrite flat_map_app. cbn. now rewrite app_nil_r.
Qed.

Lemma process_file_Raised registry path dry w e w' :
  process_file registry path dry w = Raised e w' ->
  disk w' = disk w /\ printed w' = printed w /\ writes w' = writes w
  /\ (reads w' = reads w \/ reads w' = reads w ++ [path]).
Proof.
  rewrite process_file_unfold.
  destruct (read_text path w) as [content w1|e1 w1] eqn:R.
  - apply read_text_Done in R. subst w1. cbn zeta.
    destruct (negb _ && negb dry); [|discriminate].
    destruct (write_text _ _ _) as [[] w2|e2 w2] eqn:W; [discriminate|].
    apply write_text_Raised in W. intros [= _ <-]. subst w2.
    unfold printed, writes, reads. cbn [log disk].
    rewrite !flat_map_app, filter_app. cbn.
    rewrite !app_nil_r. repeat split. now right.
  - apply read_text_Raised in R. intros [= _ <-]. subst w1.
    repeat split. now left.
Qed.

End Effects.

(** ** The run of [main] *)

Module Run.

Import Re Sys FixImports Spec Report Discovery Effects Fixtures Worlds.

Lemma collect_Done root exts : forall files w,
  collect root exts files w
  = Done (files ++ flat_map (fun ext => matching root ext (disk w)) exts) w.
Proof.
  induction exts as [|ext exts IH]; intros files w.
  - cbn. now rewrite app_nil_r.
  - cbn [collect flat_map]. unfold bind, rglob. cbn beta iota.
    rewrite IH. now rewrite app_assoc.
Qed.

Lemma find_typescript_files_Done root w :
  find_typescript_files root w = Done (discovered root (disk w)) w.
Proof. apply collect_Done. Qed.


(** One turn of the loop of [main]. *)
Lemma process_all_cons registry p files dry m t w :
  process_all registry (p :: files) dry m t w =
  match process_file registry p dry w with
  | Raised e w1 => Raised e w1
  | Done (true, changes) w1 =>
      process_all registry files dry (m + 1) (t + length changes)
        (announce w1 (FileModified p :: map Change changes))
  | Done (false, _) w1 => process_all registry files dry m t w1
  end.
Proof.
  cbn [process_all]. unfold bind at 1.
  destruct (process_file registry p dry w) as [[modified changes] w1|e w1]; [|reflexivity].
  destruct modified; [|reflexivity].
  unfold bind. cbn [print emit]. rewrite print_changes_announce.
  change (mkWorld (disk w1) (log w1 ++ [Printing (FileModified p)]))
    with (announce w1 [FileModified p]).
  now rewrite announce_app.
Qed.

Lemma process_all_app registry before : forall after dry m t w,
  process_all registry (before ++ after) dry m t w =
  match process_all registry before dry m t w with
  | Done (m', t') w1 => process_all registry after dry m' t' w1
  | Raised e w1 => Raised e w1
  end.
Proof.
  induction before as [|p before IH]; intros after dry m t w; [reflexivity|].
  cbn [app]. rewrite !process_all_cons.
  destruct (process_file registry p dry w) as [[modified changes] w1|e w1]; [|reflexivity].
  destruct modified; apply IH.
Qed.

(** The two counters count the lines the loop prints. *)
Lemma process_all_counts registry files : forall dry m t w m' t' w',
  process_all registry files dry m t w = Done (m', t') w' ->
  exists body,
    printed w' = printed w ++ body
    /\ m' = m + length (filter is_file_modified body)
    /\ t' = t + length (filter is_change body)
    /\ length (filter is_file_modified body) <= length files.
Proof.
  induction files as [|p files IH]; intros dry m t w m' t' w' H.
  - injection H as <- <- <-. exists []. cbn. rewrite app_nil_r. repeat split; lia.
  - rewrite process_all_cons in H.
    destruct (process_file registry p dry w) as [[modified changes] w1|e w1] eqn:P;
      [|discriminate].
    apply process_file_Done_printed in P.
    destruct modified.
    + apply IH in H. destruct H as (body & Hp & Hm & Ht & Hl).
      exists (FileModified p :: map Change changes ++ body).
      assert (Hf : forall cs, filter is_file_modified (map Change cs) = []).
      { induction cs; [reflexivity | assumption]. }
      assert (Hc : forall cs, length (filter is_change (map Change cs)) = length cs).
      { induction cs; [reflexivity | cbn; now f_equal]. }
      rewrite printed_announce, P in Hp.
      repeat split.
      * rewrite Hp, <- !app_assoc. reflexivity.
      * cbn [filter is_file_modified]. rewrite filter_app, Hf. cbn. lia.
      * cbn [filter is_change]. rewrite filter_app, length_app, Hc. lia.
      * cbn [filter is_file_modified]. rewrite filter_app, Hf. cbn. lia.
    + apply IH in H. destruct H as (body & Hp & Hm & Ht & Hl).
      exists body. rewrite <- P. repeat split; try assumption. cbn. lia.
Qed.

(** [main] is: the header, the loop, the summary. *)
Lemma main_unfold registry root dry w :
  main registry root dry w =
  let files := discovered root (disk w) in
  match process_all registry files dry 0 0
          (announce w (header root dry (length files))) with
  | Raised e w1 => Raised e w1
  | Done (m, t) w1 =>
      Done tt (announce w1 (summary (length files) m t
                            ++ if dry && (0 <? m)%nat then [ApplyHint] else []))
  end.
Proof.
  unfold main, bind. cbn [print emit].
  rewrite find_typescript_files_Done. cbn [log disk]. cbn zeta.
  generalize (discovered root (disk w)) as files. intros files.
  unfold announce, header. cbn [map log disk]. rewrite <- !app_assoc. cbn [app].
  destruct (process_all _ _ _ _ _ _) as [[m t] w1|e w1]; [|reflexivity].
  cbn [log disk]. unfold summary. rewrite <- !app_assoc. cbn [app map].
  destruct (dry && (0 <? m)%nat); unfold print, emit, ret; cbn [log disk].
  - rewrite <- app_assoc. reflexivity.
  - reflexivity.
Qed.

(** C2 (amended).  In every run that reaches the summary, the number of
    files modified is at most the number of files scanned and is the number
    of files listed as modified, and the total of changes is the number of
    change lines listed under them: one per entry, whatever its occurrence
    count. *)
Theorem C2_summary_totals registry root dry w w' :
  main registry root dry w = Done tt w' ->
  exists body modified total,
    printed w' =
      printed w
      ++ header root dry (length (discovered root (disk w)))
      ++ body
      ++ summary (length (discovered root (disk w))) modified total
      ++ (if dry && (0 <? modified)%nat then [ApplyHint] else [])
    /\ modified <= length (discovered root (disk w))
    /\ modified = length (filter is_file_modified body)
    /\ total = length (filter is_change body).
Proof.
  rewrite main_unfold. cbn zeta.
  destruct (process_all _ _ _ _ _ _) as [[m t] w1|e w1] eqn:P; [|discriminate].
  intros [= <-].
  apply process_all_counts in P. destruct P as (body & Hp & Hm & Ht & Hl).
  exists body, m, t. rewrite printed_announce, Hp, printed_announce.
  rewrite <- !app_assoc. repeat split; lia.
Qed.

(** C2 at a tree of one file with two imports of the same hook. *)
Lemma C2_summary_totals_witness :
  exists body modified total,
    printed (world_of (main IMPORT_RULES "src" true one_file)) =
      printed one_file
      ++ header "src" true (length (discovered "src" (disk one_file)))
      ++ body
      ++ summary (length (discovered "src" (disk one_file))) modified total
      ++ (if true && (0 <? modified)%nat then [ApplyHint] else [])
    /\ modified <= length (discovered "src" (disk one_file))
    /\ modified = length (filter is_file_modified body)
    /\ total = length (filter is_change body).
Proof.
  apply (C2_summary_totals IMPORT_RULES "src" true one_file).
  vm_compute. reflexivity.
Defined.

(** C2 as stated fails: one file with two occurrences of one pattern gives
    one entry of count 2; the summary prints a total of 1, the occurrence
    counts sum to 2. *)
Lemma C2_counterexample :
  printed (world_of (main IMPORT_RULES "src" true one_file))
  = header "src" true 1
    ++ [FileModified "src/a.ts"; Change "- useAuth hook: 2 occurrence(s)"]
    ++ summary 1 1 1 ++ [ApplyHint]
  /\ snd (apply_rules IMPORT_RULES two_imports []) = [mkChange "useAuth hook" 2]
  /\ list_sum (map occurrenceCount (snd (apply_rules IMPORT_RULES two_imports []))) = 2.
Proof. repeat split; vm_compute; reflexivity. Qed.

(** C4 (amended).  A failure to read or write a file is not caught: when
    the files before [p] are processed and [process_file] raises on [p], the
    run ends there with that error, in the world [process_file] left, which
    has the disk, the printed lines and the writes the files before [p]
    left and has read at most [p] besides them; the files after [p] are
    not processed and no summary is printed. *)
Theorem C4_failure_ends_the_run registry root dry w before p after m t w1 e w2 :
  discovered root (disk w) = before ++ p :: after ->
  process_all registry before dry 0 0
    (announce w (header root dry (length (before ++ p :: after)))) = Done (m, t) w1 ->
  process_file registry p dry w1 = Raised e w2 ->
  main registry root dry w = Raised e w2
  /\ disk w2 = disk w1 /\ printed w2 = printed w1 /\ writes w2 = writes w1
  /\ (reads w2 = reads w1 \/ reads w2 = reads w1 ++ [p]).
Proof.
  intros Hd Hb Hp. split; [|now apply (process_file_Raised registry p dry w1 e)].
  rewrite main_unfold. cbn zeta. rewrite Hd, process_all_app, Hb, process_all_cons, Hp.
  reflexivity.
Qed.

(** C4 at a tree whose second file cannot be read. *)
Lemma C4_failure_ends_the_run_witness :
  exists w1 w2,
    main IMPORT_RULES "src" false locked_file = Raised PermissionError w2
    /\ disk w2 = disk w1 /\ printed w2 = printed w1 /\ writes w2 = writes w1
    /\ (reads w2 = reads w1 \/ reads w2 = reads w1 ++ ["src/b.ts"]).
Proof.
  eexists. eexists.
  apply (C4_failure_ends_the_run IMPORT_RULES "src" false locked_file
           ["src/a.ts"] "src/b.ts" ["src/c.ts"] 1 1).
  - vm_compute. reflexivity.
  - vm_compute. reflexivity.
  - vm_compute. reflexivity.
Defined.

(** C4 as stated fails: of three files found, the second unreadable, the
    run raises [PermissionError]; only the first file was read, nothing is
    printed after its changes. *)
Lemma C4_counterexample :
  discovered "src" (disk locked_file) = ["src/a.ts"; "src/b.ts"; "src/c.ts"]
  /\ error_of (main IMPORT_RULES "src" false locked_file) = Some PermissionError
  /\ reads (world_of (main IMPORT_RULES "src" false locked_file)) = ["src/a.ts"]
  /\ printed (world_of (main IMPORT_RULES "src" false locked_file))
     = header "src" false 3
       ++ [FileModified "src/a.ts"; Change "- useAuth hook: 2 occurrence(s)"].
Proof. repeat split; vm_compute; reflexivity. Qed.

End Run.

(** ** Files that can be read and written *)

Module Files.

Import Re Sys FixImports Exceptions Spec Report Discovery Effects Run Fixtures Worlds.

Lemma lookup_store_other path content p : forall d,
  p <> path -> lookup p (store path content d) = lookup p d.
Proof.
  induction d as [|[q n] d IH]; intros Hp.
  - cbn [store lookup]. destruct (String.eqb_spec path p) as [E|E]; [now destruct Hp | reflexivity].
  - cbn [store]. destruct (String.eqb_spec q path) as [->|Hq].
    + destruct n; cbn [lookup];
        (destruct (String.eqb_spec path p) as [E|E]; [now destruct Hp | reflexivity]).
    + cbn [lookup]. destruct (String.eqb q p); [reflexivity | now apply IH].
Qed.

Lemma lookup_store_same path content f : forall d,
  lookup path d = Some (Regular f) ->
  lookup path (store path content d)
  = Some (Regular (mkFile content (readable f) (writable f))).
Proof.
  induction d as [|[q n] d IH]; [discriminate|].
  cbn [lookup store]. destruct (String.eqb_spec q path) as [->|Hq].
  - intros [= ->]. cbn [lookup]. now rewrite String.eqb_refl.
  - intros H. cbn [lookup]. apply String.eqb_neq in Hq. rewrite Hq. now apply IH.
Qed.

Lemma usable_store path content d p :
  usable d path = true -> usable d p = true -> usable (store path content d) p = true.
Proof.
  unfold usable. intros Hpath Hp.
  destruct (String.eqb_spec p path) as [->|Hne].
  - destruct (lookup path d) as [[f|]|] eqn:E; try discriminate.
    now rewrite (lookup_store_same _ _ _ _ E).
  - now rewrite lookup_store_other.
Qed.

(** On a file it can read and write, [process_file] returns, and this is
    the world it leaves. *)
Lemma process_file_usable registry path dry w f :
  lookup path (disk w) = Some (Regular f) ->
  readable f = true -> writable f = true ->
  process_file registry path dry w =
  let new := fst (apply_rules registry (data f) []) in
  let changes := map change_line (snd (apply_rules registry (data f) [])) in
  if negb (String.eqb new (data f)) && negb dry then
    Done (true, changes)
         (mkWorld (store path new (disk w)) (log w ++ [Reading path; Writing path new]))
  else
    Done (negb (String.eqb new (data f)), changes)
         (mkWorld (disk w) (log w ++ [Reading path])).
Proof.
  intros Hl Hr Hw. rewrite process_file_unfold.
  unfold read_text. rewrite Hl, Hr. cbn zeta.
  destruct (negb _ && negb dry); [|reflexivity].
  unfold write_text. cbn [disk log]. rewrite Hl, Hw, <- app_assoc. reflexivity.
Qed.

Lemma usable_inv d path :
  usable d path = true ->
  exists f, lookup path d = Some (Regular f) /\ readable f = true /\ writable f = true.
Proof.
  unfold usable. destruct (lookup path d) as [[f|]|]; try discriminate.
  intros [? ?]%andb_prop. now exists f.
Qed.

Lemma reads_app w d evs :
  reads (mkWorld d (log w ++ evs))
  = reads w ++ flat_map (fun ev => match ev with Reading p => [p] | _ => [] end) evs.
Proof. unfold reads. cbn [log]. apply flat_map_app. Qed.

Lemma reads_announce w ls : reads (announce w ls) = reads w.
Proof.
  unfold announce. rewrite reads_app.
  replace (flat_map _ (map Printing ls)) with (@nil string); [apply app_nil_r|].
  induction ls as [|l ls IH]; [reflexivity | exact IH].
Qed.

Lemma process_file_keeps_usable registry path dry w :
  usable (disk w) path = true ->
  exists r w', process_file registry path dry w = Done r w'
    /\ reads w' = reads w ++ [path]
    /\ forall p, usable (disk w) p = true -> usable (disk w') p = true.
Proof.
  intros H. destruct (usable_inv _ _ H) as (f & Hl & Hr & Hw).
  rewrite (process_file_usable _ _ _ _ _ Hl Hr Hw). cbn zeta.
  destruct (negb _ && negb dry); eexists; eexists; (split; [reflexivity|]);
    (split; [now rewrite reads_app|]);
    cbn [disk]; intros p Hp; [now apply usable_store | assumption].
Qed.

(** Over files it can read and write, the loop of [main] reads each of them
    in turn and returns. *)
Lemma process_all_completes registry files : forall dry m t w,
  forallb (usable (disk w)) files = true ->
  exists r w', process_all registry files dry m t w = Done r w'
    /\ reads w' = reads w ++ files.
Proof.
  induction files as [|p files IH]; intros dry m t w H.
  - exists (m, t), w. split; [reflexivity | now rewrite app_nil_r].
  - cbn [forallb] in H. apply andb_prop in H as [Hp Hfiles].
    rewrite process_all_cons.
    destruct (process_file_keeps_usable registry p dry w Hp)
      as ([modified changes] & w1 & -> & Hr & Hk).
    assert (Hfiles1 : forallb (usable (disk w1)) files = true).
    { rewrite forallb_forall in *. intros q Hq. apply Hk. now apply Hfiles. }
    destruct modified.
    + destruct (IH dry (m + 1) (t + length changes)
                  (announce w1 (FileModified p :: map Change changes)) Hfiles1)
        as (r & w' & -> & Hr').
      exists r, w'. split; [reflexivity|].
      now rewrite Hr', reads_announce, Hr, <- app_assoc.
    + destruct (IH dry m t w1 Hfiles1) as (r & w' & -> & Hr').
      exists r, w'. split; [reflexivity|]. now rewrite Hr', Hr, <- app_assoc.
Qed.

Lemma writes_app w d evs :
  writes (mkWorld d (log w ++ evs)) = writes w ++ filter is_write evs.
Proof. unfold writes. cbn [log]. apply filter_app. Qed.

Lemma writes_announce w ls : writes (announce w ls) = writes w.
Proof.
  unfold announce. rewrite writes_app.
  replace (filter is_write (map Printing ls)) with (@nil event); [apply app_nil_r|].
  induction ls as [|l ls IH]; [reflexivity | exact IH].
Qed.

Lemma fix_imports_usable path w f :
  lookup path (disk w) = Some (Regular f) ->
  readable f = true -> writable f = true ->
  FixPlanningImports.fix_imports path w =
  let content :=
    FixPlanningImports.apply_replacements FixPlanningImports.replacements (data f) in
  Done tt (mkWorld (store path content (disk w))
                   (log w ++ [Reading path; Writing path content; Printing (ImportsFixed path)])).
Proof.
  intros Hl Hr Hw. unfold FixPlanningImports.fix_imports, bind.
  unfold read_text. rewrite Hl, Hr.
  unfold write_text. cbn [disk log]. rewrite Hl, Hw.
  unfold print, emit. cbn [disk log]. rewrite <- !app_assoc. reflexivity.
Qed.

(** A step without [re.error] runs the same in both engines. *)
Lemma lift_bind {A B : Type} (m : IO A) (k : A -> IO B) w :
  lift (bind m k) w = then_ (lift m) (fun a => lift (k a)) w.
Proof. unfold lift, then_, bind. now destruct (m w). Qed.

Lemma lift_ret {A : Type} (a : A) w : lift (ret a) w = unit_ a w.
Proof. reflexivity. Qed.

Lemma then_ext {A B : Type} (m : Script A) (k1 k2 : A -> Script B) w :
  (forall a w', k1 a w' = k2 a w') -> then_ m k1 w = then_ m k2 w.
Proof. intros H. unfold then_. destruct (m w); [apply H | reflexivity]. Qed.

(** With patterns that compile, the engine with [re.error] is the engine
    without. *)
Lemma apply_rules_compiled : forall rules content changes,
  forallb (fun r => Checked.compiles (pattern r)) rules = true ->
  Checked.apply_rules rules content changes = Some (apply_rules rules content changes).
Proof.
  induction rules as [|r rules IH]; intros content changes H; [reflexivity|].
  cbn [forallb] in H. apply andb_prop in H as [Hr H].
  cbn [Checked.apply_rules apply_rules]. rewrite Hr. cbn zeta.
  destruct (findall (pattern r) content); [now apply IH|].
  destruct (negb _); now apply IH.
Qed.

(** With a pattern that does not compile, the loop over the rules raises. *)
Lemma apply_rules_refused : forall rules content changes,
  forallb (fun r => Checked.compiles (pattern r)) rules = false ->
  Checked.apply_rules rules content changes = None.
Proof.
  induction rules as [|r rules IH]; intros content changes H; [discriminate|].
  cbn [forallb] in H. cbn [Checked.apply_rules].
  destruct (Checked.compiles (pattern r)); [|reflexivity]. cbn [andb] in H. cbn zeta.
  destruct (findall (pattern r) content); [now apply IH|].
  destruct (negb _); now apply IH.
Qed.

Lemma process_file_compiled registry path dry w :
  forallb (fun r => Checked.compiles (pattern r)) registry = true ->
  Checked.process_file registry path dry w = lift (process_file registry path dry) w.
Proof.
  intros H. unfold Checked.process_file, process_file. rewrite lift_bind.
  apply then_ext. intros content w1. rewrite (apply_rules_compiled _ _ _ H).
  destruct (apply_rules registry content []) as [new changes].
  destruct (negb (String.eqb new content) && negb dry); [|reflexivity].
  now rewrite lift_bind.
Qed.

Lemma process_file_refused registry path dry w :
  forallb (fun r => Checked.compiles (pattern r)) registry = false ->
  Checked.process_file registry path dry w
  = match read_text path w with
    | Done _ w1 => Thrown ReError w1
    | Raised e w1 => Thrown (OSFailure e) w1
    end.
Proof.
  intros H. unfold Checked.process_file, then_, lift.
  destruct (read_text path w) as [content w1|e w1]; [|reflexivity].
  now rewrite (apply_rules_refused _ _ _ H).
Qed.

Lemma process_all_compiled registry :
  forallb (fun r => Checked.compiles (pattern r)) registry = true ->
  forall files dry m t w,
  Checked.process_all registry files dry m t w = lift (process_all registry files dry m t) w.
Proof.
  intros H. induction files as [|p files IH]; intros dry m t w; [reflexivity|].
  cbn [Checked.process_all process_all]. rewrite lift_bind. unfold then_.
  rewrite (process_file_compiled _ _ _ _ H).
  destruct (lift (process_file registry p dry) w) as [[modified changes] w1|e w1]; [|reflexivity].
  destruct modified; [|apply IH].
  rewrite lift_bind. unfold then_. destruct (lift (print _) w1) as [? w2|]; [|reflexivity].
  rewrite lift_bind. unfold then_. destruct (lift (print_changes _) w2); [|reflexivity].
  apply IH.
Qed.

Lemma main_compiled registry root dry w :
  forallb (fun r => Checked.compiles (pattern r)) registry = true ->
  Checked.main registry root dry w = lift (main registry root dry) w.
Proof.
  intros H. unfold Checked.main, main.
  repeat (rewrite lift_bind; apply then_ext; intros ? ?).
  rewrite lift_bind. unfold then_. rewrite (process_all_compiled _ H).
  destruct (lift (process_all _ _ _ _ _) _) as [[m t] w1|e w1]; [|reflexivity].
  unfold lift, bind, print, emit, ret, unit_. now destruct (dry && _).
Qed.

(** With a pattern that does not compile, [main] ends at the first file
    found, if there is one. *)
Lemma main_refused registry root dry w :
  forallb (fun r => Checked.compiles (pattern r)) registry = false ->
  Checked.main registry root dry w
  = match discovered root (disk w) with
    | [] => Returned tt (announce w (header root dry 0 ++ summary 0 0 0))
    | p :: _ =>
        match read_text p (announce w (header root dry (length (discovered root (disk w))))) with
        | Done _ w1 => Thrown ReError w1
        | Raised e w1 => Thrown (OSFailure e) w1
        end
    end.
Proof.
  intros H. unfold Checked.main, then_, lift. cbn [print emit].
  rewrite find_typescript_files_Done. cbn [log disk].
  generalize (discovered root (disk w)) as files. intros files.
  unfold announce, header. cbn [map log disk]. rewrite <- !app_assoc. cbn [app].
  destruct files as [|p files].
  - cbn [Checked.process_all unit_ length]. cbn [log disk]. rewrite andb_false_r.
    unfold unit_, summary. cbn [map]. rewrite <- !app_assoc. reflexivity.
  - cbn [Checked.process_all]. unfold then_ at 1. rewrite (process_file_refused _ _ _ _ H).
    now destruct (read_text p _).
Qed.

Lemma read_text_world path w :
  match read_text path w with
  | Done _ w1 => Candidates.can_read (disk w) path = true
                 /\ w1 = mkWorld (disk w) (log w ++ [Reading path])
  | Raised _ w1 => Candidates.can_read (disk w) path = false /\ w1 = w
  end.
Proof.
  unfold read_text, Candidates.can_read.
  destruct (lookup path (disk w)) as [[f|]|]; try now split.
  destruct (readable f); now split.
Qed.

(** C3 (amended).  The rule table is not validated: nothing is checked
    before the files are read.  For every rule table whose replacements
    hold no backslash: when every pattern compiles, patterns that match the
    empty text included, the run reads every file found, in turn, and
    completes normally whenever every path found is a regular file that can
    be read and written; when some pattern does not compile, the run
    completes normally if no file is found, and otherwise is ended at the
    first file found, with nothing written, by [re.error] once that file
    has been read, or by the [OSError] of [open] when it cannot be read. *)
Theorem C3_no_validation registry root dry w :
  forallb (fun r => Checked.literal (replacement r)) registry = true ->
  (forallb (fun r => Checked.compiles (pattern r)) registry = true ->
   forallb (usable (disk w)) (discovered root (disk w)) = true ->
   exists w',
     Checked.main registry root dry w = Returned tt w'
     /\ reads w' = reads w ++ discovered root (disk w))
  /\ (forallb (fun r => Checked.compiles (pattern r)) registry = false ->
      match discovered root (disk w) with
      | [] =>
          exists w',
            Checked.main registry root dry w = Returned tt w'
            /\ reads w' = reads w /\ writes w' = writes w /\ disk w' = disk w
      | p :: _ =>
          exists e w',
            Checked.main registry root dry w = Thrown e w'
            /\ writes w' = writes w /\ disk w' = disk w
            /\ (Candidates.can_read (disk w) p = true ->
                e = ReError /\ reads w' = reads w ++ [p])
            /\ (Candidates.can_read (disk w) p = false ->
                (exists o, e = OSFailure o) /\ reads w' = reads w)
      end).
Proof.
  intros _. split.
  - intros Hc H. rewrite (main_compiled _ _ _ _ Hc). unfold lift.
    rewrite main_unfold. cbn zeta.
    destruct (process_all_completes registry (discovered root (disk w)) dry 0 0
                (announce w (header root dry (length (discovered root (disk w))))) H)
      as ([m t] & w1 & -> & Hr).
    eexists. split; [reflexivity|]. now rewrite reads_announce, Hr, reads_announce.
  - intros Hc. rewrite (main_refused _ _ _ _ Hc).
    destruct (discovered root (disk w)) as [|p files] eqn:D.
    + eexists. split; [reflexivity|].
      rewrite reads_announce, writes_announce. now repeat split.
    + pose proof (read_text_world p (announce w (header root dry (length (p :: files))))) as R.
      destruct (read_text p _) as [content w1|e w1]; destruct R as [Hcan ->];
        cbn [announce disk] in Hcan; eexists; eexists; (split; [reflexivity|]).
      * split; [|split; [reflexivity|split]].
        -- fold (announce w (header root dry (length (p :: files)))).
           rewrite writes_app. cbn [filter is_write]. rewrite app_nil_r.
           apply writes_announce.
        -- intros _. split; [reflexivity|].
           rewrite reads_app. cbn [flat_map app]. now rewrite reads_announce.
        -- congruence.
      * split; [apply writes_announce|]. split; [reflexivity|]. split.
        -- congruence.
        -- intros _. split; [now exists e | apply reads_announce].
Qed.

(** C3 at a table whose only pattern matches the empty text, and at one
    whose only pattern does not compile. *)
Lemma C3_no_validation_witness :
  (exists w',
     Checked.main [zero_width] "src/" false small_file = Returned tt w'
     /\ reads w' = reads small_file ++ discovered "src/" (disk small_file))
  /\ (exists e w',
        Checked.main [unclosed] "src/" false small_file = Thrown e w'
        /\ writes w' = writes small_file /\ disk w' = disk small_file
        /\ (Candidates.can_read (disk small_file) "src/a.ts" = true ->
            e = ReError /\ reads w' = reads small_file ++ ["src/a.ts"])
        /\ (Candidates.can_read (disk small_file) "src/a.ts" = false ->
            (exists o, e = OSFailure o) /\ reads w' = reads small_file)).
Proof.
  split.
  - exact (proj1 (C3_no_validation [zero_width] "src/" false small_file eq_refl)
             eq_refl eq_refl).
  - exact (proj2 (C3_no_validation [unclosed] "src/" false small_file eq_refl) eq_refl).
Defined.

(** C3 as stated fails.  With a pattern that matches the empty text the
    run raises nothing, reads the file and writes it back with the
    replacement put at every empty match.  With a pattern that does not
    compile the run reads the first file before [re.error] ends it, and
    raises nothing in a tree without script. *)
Lemma C3_counterexample :
  (match_at (pattern zero_width) "" = Some (0, [])
   /\ Checked.compiles (pattern zero_width) = true
   /\ error_of (main [zero_width] "src" false small_file) = None
   /\ reads (world_of (main [zero_width] "src" false small_file)) = ["src/a.ts"]
   /\ writes (world_of (main [zero_width] "src" false small_file))
      = [Writing "src/a.ts" "-a-b-"]
   /\ exception_of (Checked.main [zero_width] "src" false small_file) = None
   /\ end_world (Checked.main [zero_width] "src" false small_file)
      = world_of (main [zero_width] "src" false small_file))
  /\ (Checked.compiles (pattern unclosed) = false
      /\ exception_of (Checked.main [unclosed] "src" false small_file) = Some ReError
      /\ reads (end_world (Checked.main [unclosed] "src" false small_file)) = ["src/a.ts"]
      /\ exception_of (Checked.main [unclosed] "src" false style_sheet) = None).
Proof. repeat split; vm_compute; reflexivity. Qed.

(** C5 (amended).  For a regular file that can be read and written,
    [process_file] of [fix_imports.py] writes it if and only if the run is
    not a dry run and the rules changed its content, and then writes the new
    content once; [fix_imports] of [fix_planning_imports.py], which has no
    dry-run mode, always writes the file once, changed or not. *)
Theorem C5_write_only_when_needed registry path dry w f :
  lookup path (disk w) = Some (Regular f) ->
  readable f = true -> writable f = true ->
  (exists r w',
      process_file registry path dry w = Done r w'
      /\ writes w' =
         writes w ++
         (if negb dry && negb (String.eqb (fst (apply_rules registry (data f) [])) (data f))
          then [Writing path (fst (apply_rules registry (data f) []))]
          else []))
  /\ (exists w',
        FixPlanningImports.fix_imports path w = Done tt w'
        /\ writes w' =
           writes w ++
           [Writing path (FixPlanningImports.apply_replacements
                          FixPlanningImports.replacements (data f))]).
Proof.
  intros Hl Hr Hw. split.
  - rewrite (process_file_usable _ _ _ _ _ Hl Hr Hw). cbn zeta.
    destruct dry, (String.eqb _ (data f)); cbn [negb andb];
      eexists; eexists; (split; [reflexivity|]); now rewrite writes_app.
  - rewrite (fix_imports_usable _ _ _ Hl Hr Hw). cbn zeta.
    eexists. split; [reflexivity|]. now rewrite writes_app.
Qed.

(** C5 at a file with two imports, in apply mode. *)
Lemma C5_write_only_when_needed_witness :
  (exists r w',
      process_file IMPORT_RULES "src/a.ts" false one_file = Done r w'
      /\ writes w' =
         writes one_file ++
         (if negb false
             && negb (String.eqb (fst (apply_rules IMPORT_RULES two_imports [])) two_imports)
          then [Writing "src/a.ts" (fst (apply_rules IMPORT_RULES two_imports []))]
          else []))
  /\ (exists w',
        FixPlanningImports.fix_imports "src/a.ts" one_file = Done tt w'
        /\ writes w' =
           writes one_file ++
           [Writing "src/a.ts" (FixPlanningImports.apply_replacements
                                FixPlanningImports.replacements two_imports)]).
Proof.
  apply (C5_write_only_when_needed IMPORT_RULES "src/a.ts" false one_file
           (mkFile two_imports true true)); reflexivity.
Defined.

(** C5 as stated fails on [fix_planning_imports.py]: a file none of its
    substitutions touches is written back all the same. *)
Lemma C5_counterexample :
  FixPlanningImports.apply_replacements FixPlanningImports.replacements "const x = 1;"
  = "const x = 1;"
  /\ error_of (FixPlanningImports.fix_imports "src/a.ts" untouched) = None
  /\ writes (world_of (FixPlanningImports.fix_imports "src/a.ts" untouched))
     = [Writing "src/a.ts" "const x = 1;"].
Proof. repeat split; vm_compute; reflexivity. Qed.

(** C6.  For a regular file that can be read and written, [process_file]
    returns the same verdict and the same change lines in dry-run and in
    apply mode; the dry run leaves the disk as it was and writes nothing,
    and the world after the apply run is the world after the dry run, or
    that world with one more write of the file. *)
Theorem C6_dry_run_equivalence registry path w f :
  lookup path (disk w) = Some (Regular f) ->
  readable f = true -> writable f = true ->
  exists r w_dry w_apply,
    process_file registry path true w = Done r w_dry
    /\ process_file registry path false w = Done r w_apply
    /\ r = (negb (String.eqb (fst (apply_rules registry (data f) [])) (data f)),
            map change_line (snd (apply_rules registry (data f) [])))
    /\ disk w_dry = disk w
    /\ writes w_dry = writes w
    /\ (w_apply = w_dry
        \/ exists content,
             w_apply = mkWorld (store path content (disk w_dry))
                               (log w_dry ++ [Writing path content])).
Proof.
  intros Hl Hr Hw.
  rewrite !(process_file_usable _ _ _ _ _ Hl Hr Hw). cbn zeta.
  destruct (String.eqb _ (data f)); cbn [negb andb];
    eexists; eexists; eexists; repeat (split; [reflexivity|]).
  - split; [now rewrite writes_app, app_nil_r|]. now left.
  - split; [now rewrite writes_app, app_nil_r|]. right. eexists.
    cbn [disk log]. now rewrite <- app_assoc.
Qed.

(** C6 at a file with two imports. *)
Lemma C6_dry_run_equivalence_witness :
  exists r w_dry w_apply,
    process_file IMPORT_RULES "src/a.ts" true one_file = Done r w_dry
    /\ process_file IMPORT_RULES "src/a.ts" false one_file = Done r w_apply
    /\ r = (negb (String.eqb (fst (apply_rules IMPORT_RULES two_imports [])) two_imports),
            map change_line (snd (apply_rules IMPORT_RULES two_imports [])))
    /\ disk w_dry = disk one_file
    /\ writes w_dry = writes one_file
    /\ (w_apply = w_dry
        \/ exists content,
             w_apply = mkWorld (store "src/a.ts" content (disk w_dry))
                               (log w_dry ++ [Writing "src/a.ts" content])).
Proof.
  apply (C6_dry_run_equivalence IMPORT_RULES "src/a.ts" one_file
           (mkFile two_imports true true)); reflexivity.
Defined.

End Files.

(** ** What [find_typescript_files] finds *)

Module DiscoveryFacts.

Import Re Sys FixImports Report Discovery Effects Run Fixtures Worlds.

(** A suffix is no longer than the text, and is the text when as long. *)
Lemma endswith_length p : forall s,
  Str.endswith p s = true -> String.length p <= String.length s.
Proof.
  induction s as [|c t IH]; cbn [Str.endswith].
  - rewrite orb_false_r. intros ->%String.eqb_eq. lia.
  - intros [->%String.eqb_eq | H%IH]%orb_prop; cbn [String.length]; lia.
Qed.

(** Of two suffixes of a text, the shorter is a suffix of the longer. *)
Lemma endswith_both p q : forall s,
  Str.endswith p s = true -> Str.endswith q s = true ->
  String.length p <= String.length q -> Str.endswith p q = true.
Proof.
  induction s as [|c t IH]; cbn [Str.endswith].
  - rewrite !orb_false_r. intros ->%String.eqb_eq ->%String.eqb_eq _. reflexivity.
  - intros Hp Hq Hl.
    apply orb_prop in Hq as [->%String.eqb_eq | Hq].
    + cbn [Str.endswith]. exact Hp.
    + apply orb_prop in Hp as [->%String.eqb_eq | Hp].
      * apply endswith_length in Hq. cbn [String.length] in Hl. lia.
      * now apply IH.
Qed.

(** A name ends with at most one of the four extensions. *)
Lemma one_extension name e1 e2 :
  In e1 FILE_EXTENSIONS -> In e2 FILE_EXTENSIONS ->
  Str.endswith e1 name = true -> Str.endswith e2 name = true -> e1 = e2.
Proof.
  intros H1 H2 E1 E2.
  destruct (Nat.le_ge_cases (String.length e1) (String.length e2)) as [L|L].
  - pose proof (endswith_both _ _ _ E1 E2 L) as H.
    cbn in H1, H2. clear - H1 H2 H.
    repeat (destruct H1 as [<-|H1]; [repeat (destruct H2 as [<-|H2];
      [first [reflexivity | discriminate H]|]); destruct H2|]). destruct H1.
  - pose proof (endswith_both _ _ _ E2 E1 L) as H.
    cbn in H1, H2. clear - H1 H2 H.
    repeat (destruct H1 as [<-|H1]; [repeat (destruct H2 as [<-|H2];
      [first [reflexivity | discriminate H]|]); destruct H2|]). destruct H1.
Qed.

Lemma In_matching root ext d p :
  In p (matching root ext d) <->
  In p (map fst d) /\ Pathlib.under root p = true
  /\ Str.endswith ext (Str.basename p) = true.
Proof.
  unfold matching. rewrite filter_In, andb_true_iff. tauto.
Qed.

(** What is found: the listed paths under the root whose name ends with
    one of the extensions, whatever kind of entry they are. *)
Lemma In_discovered root d p :
  In p (discovered root d) <->
  In p (map fst d) /\ Pathlib.under root p = true
  /\ exists ext, In ext FILE_EXTENSIONS /\ Str.endswith ext (Str.basename p) = true.
Proof.
  unfold discovered. rewrite in_flat_map. split.
  - intros (ext & He & (H1 & H2 & H3)%In_matching). eauto.
  - intros (H1 & H2 & ext & He & H3). exists ext. split; [assumption|].
    now apply In_matching.
Qed.

(** No path is found twice when none is listed twice. *)
Lemma NoDup_discovered root d :
  NoDup (map fst d) -> NoDup (discovered root d).
Proof.
  intros Hd. unfold discovered.
  assert (Hsub : forall exts, NoDup exts -> incl exts FILE_EXTENSIONS ->
            NoDup (flat_map (fun ext => matching root ext d) exts)).
  { induction exts as [|ext exts IH]; intros Hn Hi; [constructor|].
    cbn [flat_map]. apply NoDup_cons_iff in Hn as [Hx Hn].
    apply NoDup_app.
    - now apply NoDup_filter.
    - apply IH; [assumption|]. intros x Hx'. apply Hi. now right.
    - intros p (_ & _ & E1)%In_matching (ext' & He' & (_ & _ & E2)%In_matching)%in_flat_map.
      apply Hx. replace ext with ext'; [assumption|].
      apply (one_extension (Str.basename p)); try assumption.
      + apply Hi. now right.
      + apply Hi. now left. }
  apply Hsub; [|apply incl_refl].
  repeat constructor; cbn; intuition discriminate.
Qed.

(** C9, where the script departs from it.  In a tree where [src] holds a
    directory named [chart.js], [find_typescript_files] returns the path of
    that directory among the files, and [main] then raises
    [IsADirectoryError] when it opens it. *)
Theorem C9_directory_is_found :
  find_typescript_files "src" chart_js
  = Done ["src/main.ts"; "src/chart.js"; "src/chart.js/index.js"] chart_js
  /\ lookup "src/chart.js" (disk chart_js) = Some Directory
  /\ error_of (main IMPORT_RULES "src" true chart_js) = Some IsADirectoryError.
Proof. repeat split; vm_compute; reflexivity. Qed.

End DiscoveryFacts.

(** ** The import [update_imports.py] writes *)

Module DepthFacts.

Import Re Sys Depth UpdateImports Report Fixtures Worlds.
Import Files.

Lemma length_append (a b : string) :
  String.length (a ++ b) = String.length a + String.length b.
Proof. induction a as [|c a IH]; [reflexivity | cbn; now rewrite IH]. Qed.

Lemma length_repeat s n : String.length (Str.repeat s n) = n * String.length s.
Proof. induction n as [|n IH]; [reflexivity|]. cbn [Str.repeat]. rewrite length_append, IH. lia. Qed.

Lemma length_useAuth_import n : String.length (useAuth_import n) = 45 + 3 * n.
Proof.
  unfold useAuth_import. rewrite !length_append, length_repeat. cbn [String.length]. lia.
Qed.

Lemma join_text text ps : join [Text text] ps = replace_hits text ps.
Proof.
  induction ps as [|[c|t g] ps IH]; [reflexivity | cbn; now rewrite IH |].
  cbn [join replace_hits]. now rewrite IH.
Qed.

Lemma length_replace_hits text ps :
  String.length (replace_hits text ps)
  = length (filter (fun p => negb (is_hit p)) ps)
    + length (filter is_hit ps) * String.length text.
Proof.
  induction ps as [|[c|t g] ps IH]; [reflexivity | cbn; rewrite IH; lia |].
  cbn [replace_hits filter is_hit negb length]. rewrite length_append, IH. lia.
Qed.

Lemma rel_path_count file_path :
  rel_path file_path = Str.repeat "../" (Str.count "/" file_path - 1).
Proof. unfold rel_path, depth. f_equal. lia. Qed.

Lemma replacement_count file_path :
  replacement file_path = useAuth_import (Str.count "/" file_path - 1).
Proof. unfold replacement. now rewrite rel_path_count. Qed.

(** The substitution replaces every match by the same text, whatever the
    match was. *)
Lemma new_content_rewritten p content : new_content p content = rewritten p content.
Proof. unfold new_content, rewritten, sub. now rewrite join_text, replacement_count. Qed.

Lemma replace_hits_no_hit t1 t2 ps :
  filter is_hit ps = [] -> replace_hits t1 ps = replace_hits t2 ps.
Proof.
  induction ps as [|[c|t g] ps IH]; [reflexivity | | discriminate].
  cbn [filter is_hit replace_hits]. intros H. now rewrite IH.
Qed.

(** Two paths give two texts exactly when there is a match and the two
    numbers of repetitions differ. *)
Lemma rewritten_differ p1 p2 content :
  rewritten p1 content <> rewritten p2 content
  <-> findall pattern content <> [] /\ Str.count "/" p1 - 1 <> Str.count "/" p2 - 1.
Proof.
  unfold rewritten, findall. split.
  - intros H. split.
    + intros E%map_eq_nil. apply H. now apply replace_hits_no_hit.
    + intros E. apply H. now rewrite E.
  - intros [Hm Hd] H. apply (f_equal String.length) in H.
    rewrite !length_replace_hits, !length_useAuth_import in H.
    destruct (filter is_hit (scan pattern 0 content)) as [|h hs]; [now apply Hm|].
    cbn [length] in H. nia.
Qed.

(** What [update_imports_in_file] returns and leaves in the file. *)
Lemma update_imports_in_file_leaves p w content :
  content_of (disk w) p = Some content -> usable (disk w) p = true ->
  exists w',
    update_imports_in_file p w
    = Done (negb (String.eqb (rewritten p content) content)) w'
    /\ content_of (disk w') p = Some (rewritten p content).
Proof.
  unfold content_of, usable. intros Hc Hu.
  destruct (lookup p (disk w)) as [[f|]|] eqn:L; try discriminate.
  injection Hc as <-. apply andb_prop in Hu as [Hr Hw].
  unfold update_imports_in_file, bind, read_text. rewrite L, Hr.
  rewrite new_content_rewritten.
  destruct (String.eqb_spec (rewritten p (data f)) (data f)) as [E|E]; cbn [negb].
  - unfold ret. eexists. split; [reflexivity|]. cbn [disk]. now rewrite L, E.
  - unfold write_text. cbn [disk log]. rewrite L, Hw. unfold ret.
    eexists. split; [reflexivity|]. cbn [disk].
    now rewrite (lookup_store_same _ _ _ _ L).
Qed.

(** C10 (amended).  For every content and every two paths of files that
    hold it and can be read and written, [update_imports_in_file] leaves in
    each file the content with every match replaced, whatever its text, by
    the import whose prefix is the step up repeated (number of separators
    of the path) minus one times, none when that is not positive, and
    returns [True] exactly when that differs from the content.  The two
    files end up different exactly when the content holds a match and the
    two numbers of repetitions differ. *)
Theorem C10_prefix_from_depth p1 p2 w1 w2 content :
  content_of (disk w1) p1 = Some content -> usable (disk w1) p1 = true ->
  content_of (disk w2) p2 = Some content -> usable (disk w2) p2 = true ->
  exists w1' w2',
    update_imports_in_file p1 w1
    = Done (negb (String.eqb (rewritten p1 content) content)) w1'
    /\ update_imports_in_file p2 w2
       = Done (negb (String.eqb (rewritten p2 content) content)) w2'
    /\ content_of (disk w1') p1 = Some (rewritten p1 content)
    /\ content_of (disk w2') p2 = Some (rewritten p2 content)
    /\ (content_of (disk w1') p1 <> content_of (disk w2') p2
        <-> findall pattern content <> []
            /\ Str.count "/" p1 - 1 <> Str.count "/" p2 - 1).
Proof.
  intros C1 U1 C2 U2.
  destruct (update_imports_in_file_leaves p1 w1 content C1 U1) as (w1' & E1 & L1).
  destruct (update_imports_in_file_leaves p2 w2 content C2 U2) as (w2' & E2 & L2).
  exists w1', w2'. repeat (split; [assumption|]).
  rewrite L1, L2, <- rewritten_differ. split; intros H E; apply H; congruence.
Qed.

(** C10 at a file two directories deep and a file three directories deep. *)
Lemma C10_prefix_from_depth_witness :
  exists w1' w2',
    update_imports_in_file "src/hooks/a.ts"
      (mkWorld [("src/hooks/a.ts", plain hook_import)] [])
    = Done (negb (String.eqb (rewritten "src/hooks/a.ts" hook_import) hook_import)) w1'
    /\ update_imports_in_file "src/features/auth/a.ts"
         (mkWorld [("src/features/auth/a.ts", plain hook_import)] [])
       = Done (negb (String.eqb (rewritten "src/features/auth/a.ts" hook_import)
                       hook_import)) w2'
    /\ content_of (disk w1') "src/hooks/a.ts"
       = Some (rewritten "src/hooks/a.ts" hook_import)
    /\ content_of (disk w2') "src/features/auth/a.ts"
       = Some (rewritten "src/features/auth/a.ts" hook_import)
    /\ (content_of (disk w1') "src/hooks/a.ts"
        <> content_of (disk w2') "src/features/auth/a.ts"
        <-> findall pattern hook_import <> []
            /\ Str.count "/" "src/hooks/a.ts" - 1
               <> Str.count "/" "src/features/auth/a.ts" - 1).
Proof.
  exact (C10_prefix_from_depth "src/hooks/a.ts" "src/features/auth/a.ts"
           (mkWorld [("src/hooks/a.ts", plain hook_import)] [])
           (mkWorld [("src/features/auth/a.ts", plain hook_import)] [])
           hook_import eq_refl eq_refl eq_refl eq_refl).
Defined.

(** C10 as stated fails: a path without separator has depth -1 and a path
    with one has depth 0, and both get the import without prefix; and a
    content without match stays as it is at every depth. *)
Lemma C10_counterexample :
  depth "a.ts" <> depth "src/a.ts"
  /\ findall pattern hook_import <> []
  /\ new_content "a.ts" hook_import = "import { useAuth } from 'features/auth/hooks';"
  /\ new_content "src/a.ts" hook_import = "import { useAuth } from 'features/auth/hooks';"
  /\ update_imports_in_file "a.ts" (mkWorld [("a.ts", plain hook_import)] [])
     = Done true
         (mkWorld [("a.ts", plain "import { useAuth } from 'features/auth/hooks';")]
            [Reading "a.ts";
             Writing "a.ts" "import { useAuth } from 'features/auth/hooks';"])
  /\ update_imports_in_file "src/a.ts" (mkWorld [("src/a.ts", plain hook_import)] [])
     = Done true
         (mkWorld [("src/a.ts", plain "import { useAuth } from 'features/auth/hooks';")]
            [Reading "src/a.ts";
             Writing "src/a.ts" "import { useAuth } from 'features/auth/hooks';"])
  /\ findall pattern "const x = 1;" = []
  /\ new_content "src/hooks/a.ts" "const x = 1;"
     = new_content "src/features/auth/a.ts" "const x = 1;".
Proof. repeat split; try (vm_compute; reflexivity); vm_compute; discriminate. Qed.

(** The new contents at three depths, literally. *)
Example hook_import_at_two_depths :
  new_content "src/hooks/a.ts" hook_import
  = "import { useAuth } from '../features/auth/hooks';"
  /\ new_content "src/features/auth/a.ts" hook_import
     = "import { useAuth } from '../../features/auth/hooks';"
  /\ new_content "a.ts" hook_import
     = "import { useAuth } from 'features/auth/hooks';".
Proof. repeat split; vm_compute; reflexivity. Qed.

End DepthFacts.

(** ** More on [fix_imports.py]: discovery and files without match *)

Module MoreOnFixImports.

Import Re Sys FixImports Spec Report Discovery Shape Fixtures Worlds.
Import Matcher RuleApplier Effects Run Files DiscoveryFacts.

(** [Path(root_dir)] reads a relative root with a slash after it as it
    reads the root. *)
Lemma split_not_nil : forall s, Pathlib.split s <> [].
Proof.
  intros [|c t]; cbn [Pathlib.split]; [discriminate|].
  destruct (Ascii.eqb c "/"); [discriminate|].
  destruct (Pathlib.split t); discriminate.
Qed.

Lemma split_slash_after : forall s,
  Pathlib.split (s ++ "/") = (Pathlib.split s ++ [""])%list.
Proof.
  induction s as [|c t IH]; [reflexivity|].
  cbn [append Pathlib.split]. rewrite IH.
  destruct (Ascii.eqb c "/"); [reflexivity|].
  pose proof (split_not_nil t) as H.
  destruct (Pathlib.split t) as [|h r]; [contradiction|reflexivity].
Qed.

Lemma normal_slash_after root :
  root <> "" -> Str.startswith "/" root = false ->
  Pathlib.normal (root ++ "/") = Pathlib.normal root.
Proof.
  intros Hn Hs. unfold Pathlib.normal, Pathlib.parts.
  rewrite split_slash_after, filter_app. cbn [filter Pathlib.kept String.eqb negb andb].
  rewrite app_nil_r.
  destruct root as [|c t]; [contradiction|].
  unfold Pathlib.anchor. cbn [append Str.startswith] in *.
  destruct (Ascii.eqb "/" c); [discriminate|reflexivity].
Qed.

(** X1.  A slash after a relative root changes nothing to what
    [find_typescript_files] finds: [--dir src/] and [--dir src] name the
    same directory. *)
Theorem find_typescript_files_trailing_slash root w :
  root <> "" -> Str.startswith "/" root = false ->
  find_typescript_files (root ++ "/") w = find_typescript_files root w.
Proof.
  intros Hn Hs. rewrite !find_typescript_files_Done. f_equal.
  unfold discovered, matching, Pathlib.under.
  now rewrite (normal_slash_after root Hn Hs).
Qed.

(** X1 at [src], in the tree with a directory named like a script. *)
Lemma find_typescript_files_trailing_slash_witness :
  find_typescript_files "src/" chart_js = find_typescript_files "src" chart_js.
Proof.
  apply (find_typescript_files_trailing_slash "src" chart_js);
    [discriminate | reflexivity].
Defined.

(** X2.  When no path is listed twice, [find_typescript_files] returns no
    path twice. *)
Theorem find_typescript_files_no_duplicate root w :
  NoDup (map fst (disk w)) ->
  exists files, find_typescript_files root w = Done files w /\ NoDup files.
Proof.
  intros H. exists (discovered root (disk w)). split.
  - apply find_typescript_files_Done.
  - now apply NoDup_discovered.
Qed.

(** X2 at the tree with a directory named like a script. *)
Lemma find_typescript_files_no_duplicate_witness :
  exists files,
    find_typescript_files "src" chart_js = Done files chart_js /\ NoDup files.
Proof.
  apply (find_typescript_files_no_duplicate "src" chart_js).
  cbn. repeat constructor; cbn; intuition discriminate.
Defined.

(** X3.  On a readable file none of whose content any rule matches,
    [process_file] returns the verdict unmodified with no change line and
    only reads the file, in either mode and whether or not the file can be
    written. *)
Theorem process_file_no_match registry path dry w f :
  lookup path (disk w) = Some (Regular f) ->
  readable f = true ->
  (forall r, In r registry -> findall (pattern r) (data f) = []) ->
  process_file registry path dry w
  = Done (false, []) (mkWorld (disk w) (log w ++ [Reading path])).
Proof.
  intros Hl Hr Hn. rewrite process_file_unfold. unfold read_text. rewrite Hl, Hr.
  rewrite (apply_rules_noop registry (data f) [] Hn). cbn [fst snd map].
  now rewrite String.eqb_refl.
Qed.

(** X3 at a file without import, with the table of the script. *)
Lemma process_file_no_match_witness :
  process_file IMPORT_RULES "src/a.ts" false untouched
  = Done (false, []) (mkWorld (disk untouched) (log untouched ++ [Reading "src/a.ts"])).
Proof.
  apply (process_file_no_match IMPORT_RULES "src/a.ts" false untouched
           (mkFile "const x = 1;" true true)); try reflexivity.
  intros r Hr. cbn in Hr.
  repeat (destruct Hr as [<-|Hr]; [vm_compute; reflexivity|]). destruct Hr.
Defined.

End MoreOnFixImports.

(** ** Dry runs, read-only files and empty trees *)

Module DryRun.

Import Re Sys FixImports Spec Report Discovery Shape Fixtures Worlds.
Import Matcher RuleApplier Effects Run Files DiscoveryFacts.

(** A dry run of [process_file] leaves the disk and the writes as they
    were, whether it returns or raises. *)
Lemma process_file_dry registry path w :
  disk (world_of (process_file registry path true w)) = disk w
  /\ writes (world_of (process_file registry path true w)) = writes w.
Proof.
  rewrite process_file_unfold.
  destruct (read_text path w) as [content w1|e w1] eqn:R.
  - apply read_text_Done in R. subst w1. cbn zeta.
    rewrite andb_false_r. cbn [world_of disk]. split; [reflexivity|].
    now rewrite writes_app, app_nil_r.
  - apply read_text_Raised in R. now subst w1.
Qed.

Lemma process_all_dry registry files : forall m t w,
  disk (world_of (process_all registry files true m t w)) = disk w
  /\ writes (world_of (process_all registry files true m t w)) = writes w.
Proof.
  induction files as [|p files IH]; intros m t w; [now split|].
  rewrite process_all_cons.
  destruct (process_file_dry registry p w) as [Hd Hw].
  destruct (process_file registry p true w) as [[[|] changes] w1|e w1];
    cbn [world_of] in Hd, Hw.
  - destruct (IH (m + 1) (t + length changes)
                (announce w1 (FileModified p :: map Change changes))) as [H1 H2].
    rewrite H1, H2, writes_announce. now split.
  - destruct (IH m t w1) as [H1 H2]. rewrite H1, H2. now split.
  - now split.
Qed.

(** X4.  A dry run of [main] writes nothing and leaves the disk as it
    was, whatever the tree and the rules, whether the run completes or
    raises. *)
Theorem dry_run_writes_nothing registry root w :
  disk (world_of (main registry root true w)) = disk w
  /\ writes (world_of (main registry root true w)) = writes w.
Proof.
  rewrite main_unfold. cbn zeta.
  destruct (process_all_dry registry (discovered root (disk w)) 0 0
              (announce w (header root true (length (discovered root (disk w))))))
    as [Hd Hw].
  destruct (process_all _ _ _ _ _ _) as [[m t] w1|e w1]; cbn [world_of] in *.
  - rewrite writes_announce, Hw, writes_announce. now split.
  - rewrite Hw, writes_announce. now split.
Qed.

(** X5.  On a file that can be read but not written, the dry run of
    [process_file] returns its verdict and change lines without error; the
    apply run returns the same when the rules leave the content as it is,
    and raises [PermissionError], after the read, when they change it. *)
Theorem read_only_file registry path w f :
  lookup path (disk w) = Some (Regular f) ->
  readable f = true -> writable f = false ->
  process_file registry path true w
  = Done (negb (String.eqb (fst (apply_rules registry (data f) [])) (data f)),
          map change_line (snd (apply_rules registry (data f) [])))
         (mkWorld (disk w) (log w ++ [Reading path]))
  /\ process_file registry path false w
     = if String.eqb (fst (apply_rules registry (data f) [])) (data f)
       then Done (false, map change_line (snd (apply_rules registry (data f) [])))
                 (mkWorld (disk w) (log w ++ [Reading path]))
       else Raised PermissionError (mkWorld (disk w) (log w ++ [Reading path])).
Proof.
  intros Hl Hr Hw. rewrite !process_file_unfold. unfold read_text. rewrite Hl, Hr.
  cbn zeta. rewrite andb_false_r. split; [reflexivity|].
  destruct (String.eqb _ (data f)); cbn [negb andb]; [reflexivity|].
  unfold write_text. cbn [disk log]. now rewrite Hl, Hw.
Qed.

(** X5 at a read-only file with two imports. *)
Lemma read_only_file_witness :
  process_file IMPORT_RULES "src/b.ts" true
    (mkWorld [("src/b.ts", Regular (mkFile two_imports true false))] [])
  = Done (true, ["- useAuth hook: 2 occurrence(s)"])
         (mkWorld [("src/b.ts", Regular (mkFile two_imports true false))]
                  [Reading "src/b.ts"])
  /\ process_file IMPORT_RULES "src/b.ts" false
       (mkWorld [("src/b.ts", Regular (mkFile two_imports true false))] [])
     = Raised PermissionError
         (mkWorld [("src/b.ts", Regular (mkFile two_imports true false))]
                  [Reading "src/b.ts"]).
Proof.
  exact (read_only_file IMPORT_RULES "src/b.ts"
           (mkWorld [("src/b.ts", Regular (mkFile two_imports true false))] [])
           (mkFile two_imports true false) eq_refl eq_refl eq_refl).
Defined.

(** X6.  When no listed path under the root has a name ending in one of
    the four extensions, [main] completes: it prints the header with a
    count of 0 and the summary with three zeros, no hint even in a dry
    run, and it reads and writes nothing. *)
Theorem main_nothing_found registry root dry w :
  (forall p, In p (map fst (disk w)) -> Pathlib.under root p = true ->
     existsb (fun ext => Str.endswith ext (Str.basename p)) FILE_EXTENSIONS = false) ->
  main registry root dry w
  = Done tt (announce w (header root dry 0 ++ summary 0 0 0))
  /\ reads (announce w (header root dry 0 ++ summary 0 0 0)) = reads w
  /\ writes (announce w (header root dry 0 ++ summary 0 0 0)) = writes w.
Proof.
  intros H.
  assert (E : discovered root (disk w) = []).
  { destruct (discovered root (disk w)) as [|p l] eqn:D; [reflexivity|].
    assert (Hp : In p (discovered root (disk w))) by (rewrite D; now left).
    apply In_discovered in Hp as (H1 & H2 & ext & He & H3).
    specialize (H p H1 H2).
    assert (X : existsb (fun ext => Str.endswith ext (Str.basename p)) FILE_EXTENSIONS = true)
      by (apply existsb_exists; eauto).
    congruence. }
  split; [|split].
  - rewrite main_unfold. cbn zeta. rewrite E. cbn [process_all length].
    unfold ret. rewrite andb_false_r. now rewrite app_nil_r, announce_app.
  - apply reads_announce.
  - apply writes_announce.
Qed.

(** X6 at a root whose only entry is a style sheet. *)
Lemma main_nothing_found_witness :
  main IMPORT_RULES "src/" true
    (mkWorld [("src/a.css", Regular (mkFile "a" true true));
              ("lib/a.ts", Regular (mkFile "b" true true))] [])
  = Done tt
      (announce
         (mkWorld [("src/a.css", Regular (mkFile "a" true true));
                   ("lib/a.ts", Regular (mkFile "b" true true))] [])
         (header "src/" true 0 ++ summary 0 0 0)).
Proof.
  apply (main_nothing_found IMPORT_RULES "src/" true
           (mkWorld [("src/a.css", Regular (mkFile "a" true true));
                     ("lib/a.ts", Regular (mkFile "b" true true))] [])).
  intros p [<-|[<-|[]]]; vm_compute; intros; congruence.
Defined.

End DryRun.

(** ** What a run leaves alone *)

Module Frame.

Import Re Sys FixImports Spec Report Discovery Shape Fixtures Worlds.
Import Matcher RuleApplier Effects Run Files DiscoveryFacts DryRun.

(** Storing into a listed path keeps the paths and the kinds. *)
Lemma shape_store path content n : forall d,
  lookup path d = Some n -> shape (store path content d) = shape d.
Proof.
  induction d as [|[q k] d IH]; [discriminate|].
  cbn [lookup store]. destruct (String.eqb q path).
  - intros _. now destruct k.
  - intros H. cbn [shape map]. f_equal. now apply IH.
Qed.

(** What [process_file] can do to the disk. *)
Lemma process_file_disk registry path dry w :
  disk (world_of (process_file registry path dry w)) = disk w
  \/ exists f content,
       lookup path (disk w) = Some (Regular f)
       /\ disk (world_of (process_file registry path dry w)) = store path content (disk w).
Proof.
  rewrite process_file_unfold. unfold read_text.
  destruct (lookup path (disk w)) as [[f|]|] eqn:L; try (now left).
  destruct (readable f); [|now left]. cbn zeta.
  destruct (negb _ && negb dry); [|now left].
  unfold write_text. cbn [disk log]. rewrite L.
  destruct (writable f); [|now left]. right. exists f. eexists. split; reflexivity.
Qed.

Lemma process_file_frame registry path dry w :
  shape (disk (world_of (process_file registry path dry w))) = shape (disk w)
  /\ forall p, p <> path ->
       lookup p (disk (world_of (process_file registry path dry w))) = lookup p (disk w).
Proof.
  destruct (process_file_disk registry path dry w) as [->|(f & c & L & ->)].
  - now split.
  - split; [exact (shape_store _ _ _ _ L) | intros p Hp; now apply lookup_store_other].
Qed.

Lemma process_all_frame registry files : forall dry m t w,
  shape (disk (world_of (process_all registry files dry m t w))) = shape (disk w)
  /\ forall p, ~ In p files ->
       lookup p (disk (world_of (process_all registry files dry m t w))) = lookup p (disk w).
Proof.
  induction files as [|q files IH]; intros dry m t w; [now split|].
  rewrite process_all_cons.
  destruct (process_file_frame registry q dry w) as [Hs Hl].
  destruct (process_file registry q dry w) as [[[|] changes] w1|e w1];
    cbn [world_of] in Hs, Hl.
  - destruct (IH dry (m + 1) (t + length changes)
                (announce w1 (FileModified q :: map Change changes))) as [H1 H2].
    cbn [announce disk] in H1, H2. split; [now rewrite H1|].
    intros p Hp. rewrite H2, Hl; [reflexivity | |]; intros E; apply Hp; [now left; subst | now right].
  - destruct (IH dry m t w1) as [H1 H2]. split; [now rewrite H1|].
    intros p Hp. rewrite H2, Hl; [reflexivity | |]; intros E; apply Hp; [now left; subst | now right].
  - split; [assumption|]. intros p Hp. apply Hl. intros E. apply Hp. now left.
Qed.

(** X7.  A run of [main], complete or not, in either mode, creates,
    removes and renames nothing and changes no permission, and leaves every
    path it did not find exactly as it was: every path that is not under
    the root as [pathlib] reads it, and every path whose name ends with
    none of the four extensions. *)
Theorem main_touches_only_found registry root dry w :
  shape (disk (world_of (main registry root dry w))) = shape (disk w)
  /\ (forall p, ~ In p (discovered root (disk w)) ->
        lookup p (disk (world_of (main registry root dry w))) = lookup p (disk w))
  /\ (forall p,
        Pathlib.under root p
        && existsb (fun ext => Str.endswith ext (Str.basename p)) FILE_EXTENSIONS = false ->
        lookup p (disk (world_of (main registry root dry w))) = lookup p (disk w)).
Proof.
  assert (A : shape (disk (world_of (main registry root dry w))) = shape (disk w)
    /\ (forall p, ~ In p (discovered root (disk w)) ->
        lookup p (disk (world_of (main registry root dry w))) = lookup p (disk w))).
  { rewrite main_unfold. cbn zeta.
    destruct (process_all_frame registry (discovered root (disk w)) dry 0 0
                (announce w (header root dry (length (discovered root (disk w))))))
      as [Hs Hl].
    destruct (process_all _ _ _ _ _ _) as [[m t] w1|e w1]; cbn [world_of announce disk] in *;
      now split. }
  destruct A as [A1 A2]. split; [exact A1|]. split; [exact A2|].
  intros p Hp. apply A2. intros (_ & Hu & ext & He & Hx)%In_discovered.
  assert (X : existsb (fun ext => Str.endswith ext (Str.basename p)) FILE_EXTENSIONS = true)
    by (apply existsb_exists; eauto).
  rewrite Hu, X in Hp. discriminate.
Qed.

End Frame.

(** ** Verdicts, counters and what is written *)

Module Verdict.

Import Re Sys FixImports Spec Report Discovery Shape Fixtures Worlds MoreWorlds.
Import Matcher RuleApplier Effects Run Files DiscoveryFacts DryRun Frame.

(** The loop changes the content only by a rule that records an entry. *)
Lemma apply_rules_changed rules : forall content changes,
  fst (apply_rules rules content changes) <> content ->
  length changes < length (snd (apply_rules rules content changes)).
Proof.
  induction rules as [|r rules IH]; intros content changes H.
  - now destruct H.
  - destruct (findall (pattern r) content) as [|m ms] eqn:E.
    + rewrite apply_rules_no_match in * by assumption. now apply IH.
    + destruct (String.eqb_spec (sub (pattern r) [Text (replacement r)] content) content)
        as [Hs|Hs].
      * rewrite apply_rules_unchanged in * by assumption. now apply IH.
      * rewrite apply_rules_rewrite by congruence.
        rewrite apply_rules_changes. cbn [snd]. rewrite !length_app. cbn. lia.
Qed.

(** X8.  When [process_file] returns the verdict modified, its list of
    changes is not empty. *)
Theorem modified_lists_a_change registry path dry w changes w' :
  process_file registry path dry w = Done (true, changes) w' -> changes <> [].
Proof.
  rewrite process_file_unfold.
  destruct (read_text path w) as [content w1|e w1]; [|discriminate]. cbn zeta.
  destruct (String.eqb_spec (fst (apply_rules registry content [])) content) as [E|E].
  - cbn [negb andb]. discriminate.
  - apply apply_rules_changed in E. cbn [negb andb length] in *.
    assert (Hne : map change_line (snd (apply_rules registry content [])) <> []).
    { destruct (snd (apply_rules registry content [])); [cbn in E; lia | discriminate]. }
    destruct (negb dry).
    + destruct (write_text _ _ _); [|discriminate]. now intros [= <- _].
    + now intros [= <- _].
Qed.

(** X8 at a file with two imports. *)
Lemma modified_lists_a_change_witness :
  process_file IMPORT_RULES "src/a.ts" true one_file
  = Done (true, ["- useAuth hook: 2 occurrence(s)"])
         (mkWorld (disk one_file) [Reading "src/a.ts"])
  /\ ["- useAuth hook: 2 occurrence(s)"] <> [].
Proof.
  assert (H : process_file IMPORT_RULES "src/a.ts" true one_file
              = Done (true, ["- useAuth hook: 2 occurrence(s)"])
                     (mkWorld (disk one_file) [Reading "src/a.ts"]))
    by (vm_compute; reflexivity).
  split; [exact H|].
  exact (modified_lists_a_change IMPORT_RULES "src/a.ts" true one_file _ _ H).
Defined.

(** A pattern of single atoms matches as many characters as it has atoms,
    and captures nothing. *)
Lemma match_here_fixed r : forall pos opened caps s w caps',
  forallb is_one r = true ->
  match_here r pos opened caps s = Some (w, caps') ->
  w = pos + length r /\ caps' = caps.
Proof.
  induction r as [|i r IH]; intros pos opened caps s w caps' Hr H; cbn [match_here] in H.
  - injection H as <- <-. cbn. split; [lia | reflexivity].
  - cbn [forallb] in Hr. apply andb_prop in Hr as [Hi Hr].
    destruct i as [k|k| |]; try discriminate Hi.
    destruct s as [|c t]; [discriminate|].
    destruct (accepts k c); [|discriminate].
    apply IH in H; [|assumption]. cbn [length]. split; [lia | tauto].
Qed.

(** X9.  Every match of a pattern of [IMPORT_RULES], in any text, spans as
    many characters as the pattern has atoms, is not empty, and captures no
    group. *)
Theorem import_rules_fixed_width r s w caps :
  In r IMPORT_RULES ->
  match_at (pattern r) s = Some (w, caps) ->
  w = length (pattern r) /\ 0 < w /\ caps = [].
Proof.
  intros Hr H.
  assert (Hall : forallb (fun r => forallb is_one (pattern r)
                                   && (0 <? length (pattern r))%nat) IMPORT_RULES = true)
    by (vm_compute; reflexivity).
  rewrite forallb_forall in Hall. apply Hall in Hr.
  apply andb_prop in Hr as [H1 H2]. apply Nat.ltb_lt in H2.
  apply match_here_fixed in H; [|assumption]. destruct H as [-> ->].
  cbn. repeat split. assumption.
Qed.

(** X9 at the rule for the hook and an import it matches. *)
Lemma import_rules_fixed_width_witness :
  In hooks_rule IMPORT_RULES
  /\ match_at (pattern hooks_rule) (from_q "../hooks/useAuth") = Some (23, [])
  /\ 23 = length (pattern hooks_rule) /\ 0 < 23 /\ @nil (nat * nat) = [].
Proof.
  assert (Hin : In hooks_rule IMPORT_RULES) by (cbn; do 5 right; left; reflexivity).
  assert (Hm : match_at (pattern hooks_rule) (from_q "../hooks/useAuth") = Some (23, []))
    by (vm_compute; reflexivity).
  split; [exact Hin|]. split; [exact Hm|].
  exact (import_rules_fixed_width hooks_rule (from_q "../hooks/useAuth") 23 [] Hin Hm).
Defined.

(** What a completed [process_file] adds to the writes. *)
Lemma process_file_Done_writes registry path dry w modified changes w' :
  process_file registry path dry w = Done (modified, changes) w' ->
  length (writes w') = length (writes w) + (if modified && negb dry then 1 else 0).
Proof.
  rewrite process_file_unfold.
  destruct (read_text path w) as [content w1|e w1] eqn:R; [|discriminate].
  apply read_text_Done in R. subst w1. cbn zeta.
  destruct (String.eqb _ content); cbn [negb andb].
  - intros [= <- _ <-]. rewrite writes_app, app_nil_r. cbn. lia.
  - destruct dry; cbn [negb].
    + intros [= <- _ <-]. rewrite writes_app, app_nil_r. cbn. lia.
    + destruct (write_text _ _ _) as [[] w2|e w2] eqn:W; [|discriminate].
      apply write_text_Done in W. intros [= <- _ <-]. subst w2.
      rewrite writes_app. cbn [filter is_write]. rewrite writes_app, app_nil_r.
      rewrite length_app. cbn. lia.
Qed.

(** X10.  When the loop of [main] completes, its counter of modified files
    has not decreased, and the loop has written as many files as the
    counter gained in apply mode, none in a dry run. *)
Theorem modified_files_counts_writes registry files : forall dry m t w m' t' w',
  process_all registry files dry m t w = Done (m', t') w' ->
  m <= m'
  /\ length (writes w') = length (writes w) + (if dry then 0 else m' - m).
Proof.
  induction files as [|p files IH]; intros dry m t w m' t' w' H.
  - injection H as <- <- <-. split; [lia|]. destruct dry; lia.
  - rewrite process_all_cons in H.
    destruct (process_file registry p dry w) as [[modified changes] w1|e w1] eqn:P;
      [|discriminate].
    apply process_file_Done_writes in P.
    destruct modified; apply IH in H as [Hm Hw]; cbn [andb] in P.
    + rewrite writes_announce in Hw. split; [lia|].
      rewrite Hw, P. destruct dry; cbn [negb]; lia.
    + split; [lia|]. rewrite Hw, P. destruct dry; lia.
Qed.

(** X10 at a file that changes and a file that does not. *)
Lemma modified_files_counts_writes_witness :
  process_all IMPORT_RULES ["src/a.ts"; "src/b.ts"] false 0 0 two_files
  = Done (1, 1)
      (world_of (process_all IMPORT_RULES ["src/a.ts"; "src/b.ts"] false 0 0 two_files))
  /\ 0 <= 1
  /\ length (writes (world_of (process_all IMPORT_RULES ["src/a.ts"; "src/b.ts"] false 0 0
                                two_files)))
     = length (writes two_files) + (if false then 0 else 1 - 0).
Proof.
  assert (H : process_all IMPORT_RULES ["src/a.ts"; "src/b.ts"] false 0 0 two_files
              = Done (1, 1)
                  (world_of (process_all IMPORT_RULES ["src/a.ts"; "src/b.ts"] false 0 0
                               two_files)))
    by (vm_compute; reflexivity).
  split; [exact H|].
  exact (modified_files_counts_writes IMPORT_RULES _ _ _ _ _ _ _ _ H).
Defined.

(** X11.  After an apply run of [process_file] on a file that can be read
    and written, the file holds the content the rules give, with the
    permissions it had, and reading it returns that content. *)
Theorem applied_content_is_read_back registry path w f :
  lookup path (disk w) = Some (Regular f) ->
  readable f = true -> writable f = true ->
  exists r w',
    process_file registry path false w = Done r w'
    /\ lookup path (disk w')
       = Some (Regular (mkFile (fst (apply_rules registry (data f) []))
                               (readable f) (writable f)))
    /\ exists w'',
         read_text path w' = Done (fst (apply_rules registry (data f) [])) w''.
Proof.
  intros Hl Hr Hw. rewrite (process_file_usable _ _ _ _ _ Hl Hr Hw). cbn zeta.
  destruct (String.eqb_spec (fst (apply_rules registry (data f) [])) (data f)) as [E|E];
    cbn [negb andb]; eexists; eexists; (split; [reflexivity|]); cbn [disk].
  - rewrite E, Hl. split; [now destruct f|].
    unfold read_text. cbn [disk]. rewrite Hl, Hr. eauto.
  - rewrite (lookup_store_same _ _ _ _ Hl). split; [reflexivity|].
    unfold read_text. cbn [disk]. rewrite (lookup_store_same _ _ _ _ Hl). cbn [readable].
    rewrite Hr. eauto.
Qed.

(** X11 at a file with two imports. *)
Lemma applied_content_is_read_back_witness :
  exists r w',
    process_file IMPORT_RULES "src/a.ts" false one_file = Done r w'
    /\ lookup "src/a.ts" (disk w')
       = Some (Regular (mkFile (fst (apply_rules IMPORT_RULES two_imports [])) true true))
    /\ exists w'',
         read_text "src/a.ts" w' = Done (fst (apply_rules IMPORT_RULES two_imports [])) w''.
Proof.
  exact (applied_content_is_read_back IMPORT_RULES "src/a.ts" one_file
           (mkFile two_imports true true) eq_refl eq_refl eq_refl).
Defined.

End Verdict.

(** ** More on [update_imports.py]: one file *)

Module MoreOnUpdateImports.

Import Re Sys UpdateImports UpdateImportsScript Report Shape Fixtures Worlds.
Import Matcher Effects Files DryRun.

(** With no match, the pieces are the text and [re.sub] changes nothing. *)
Lemma join_no_hit tpl ps : filter is_hit ps = [] -> join tpl ps = covered ps.
Proof.
  induction ps as [|[c|t g] ps IH]; [reflexivity | | discriminate].
  cbn [filter is_hit join covered]. intros H. now rewrite IH.
Qed.

Lemma sub_no_match r tpl s : findall r s = [] -> sub r tpl s = s.
Proof.
  unfold findall, sub. intros H%map_eq_nil.
  rewrite join_no_hit by assumption. apply covered_scan_all.
Qed.

(** [re.search] finds a match exactly when [re.findall] finds one. *)
Lemma search_findall r : forall s, search r s = None <-> findall r s = [].
Proof.
  unfold findall. induction s as [|c t IH]; cbn [search scan].
  - destruct (match_at r ""); cbn; split; (reflexivity || discriminate).
  - destruct (match_at r (String c t)) as [m|]; cbn [filter is_hit hit_of map].
    + split; discriminate.
    + exact IH.
Qed.

(** What [update_imports_in_file] does to a file it can read and write. *)
Lemma update_imports_in_file_effect path w f :
  lookup path (disk w) = Some (Regular f) ->
  readable f = true -> writable f = true ->
  exists updated w',
    update_imports_in_file path w = Done updated w'
    /\ updated = negb (String.eqb (new_content path (data f)) (data f))
    /\ writes w' = writes w ++ (if updated then [Writing path (new_content path (data f))] else [])
    /\ disk w' = (if updated then store path (new_content path (data f)) (disk w) else disk w)
    /\ forall p, p <> path -> lookup p (disk w') = lookup p (disk w).
Proof.
  intros Hl Hr Hw. unfold update_imports_in_file, bind, read_text. rewrite Hl, Hr.
  destruct (String.eqb (new_content path (data f)) (data f)); cbn [negb].
  - unfold ret. eexists; eexists. split; [reflexivity|]. split; [reflexivity|].
    split; [rewrite writes_app; reflexivity|]. split; [reflexivity|]. reflexivity.
  - unfold write_text. cbn [disk log]. rewrite Hl, Hw. unfold ret.
    eexists; eexists. split; [reflexivity|]. split; [reflexivity|].
    split; [unfold writes; cbn [log]; rewrite !filter_app; cbn; now rewrite app_nil_r|].
    split; [reflexivity|]. intros p Hp. cbn [disk]. now apply lookup_store_other.
Qed.

(** X12.  On a file that can be read and written, [update_imports_in_file]
    returns [True] exactly when the substitution changes the content; it
    then writes the new content to the file, once, and otherwise writes
    nothing; no other path is touched. *)
Theorem update_imports_in_file_result path w f :
  lookup path (disk w) = Some (Regular f) ->
  readable f = true -> writable f = true ->
  exists updated w',
    update_imports_in_file path w = Done updated w'
    /\ updated = negb (String.eqb (new_content path (data f)) (data f))
    /\ writes w' = writes w ++ (if updated then [Writing path (new_content path (data f))] else [])
    /\ disk w' = (if updated then store path (new_content path (data f)) (disk w) else disk w)
    /\ forall p, p <> path -> lookup p (disk w') = lookup p (disk w).
Proof. exact (@update_imports_in_file_effect path w f). Qed.

(** X12 at a file that imports the hook. *)
Lemma update_imports_in_file_result_witness :
  exists updated w',
    update_imports_in_file "src/a.ts" (mkWorld [("src/a.ts", plain hook_import)] [])
    = Done updated w'
    /\ updated = negb (String.eqb (new_content "src/a.ts" hook_import) hook_import)
    /\ writes w' = writes (mkWorld [("src/a.ts", plain hook_import)] [])
                   ++ (if updated then [Writing "src/a.ts" (new_content "src/a.ts" hook_import)]
                       else [])
    /\ disk w' = (if updated
                  then store "src/a.ts" (new_content "src/a.ts" hook_import)
                         [("src/a.ts", plain hook_import)]
                  else [("src/a.ts", plain hook_import)])
    /\ forall p, p <> "src/a.ts" ->
                 lookup p (disk w') = lookup p [("src/a.ts", plain hook_import)].
Proof.
  exact (update_imports_in_file_result "src/a.ts"
           (mkWorld [("src/a.ts", plain hook_import)] [])
           (mkFile hook_import true true) eq_refl eq_refl eq_refl).
Defined.

(** X13.  On a readable file whose content holds no match of the pattern,
    [update_imports_in_file] returns [False] and only reads the file. *)
Theorem update_imports_in_file_no_match path w f :
  lookup path (disk w) = Some (Regular f) ->
  readable f = true ->
  findall pattern (data f) = [] ->
  update_imports_in_file path w = Done false (mkWorld (disk w) (log w ++ [Reading path])).
Proof.
  intros Hl Hr Hn. unfold update_imports_in_file, bind, read_text. rewrite Hl, Hr.
  unfold new_content. rewrite (sub_no_match _ _ _ Hn), String.eqb_refl. reflexivity.
Qed.

(** X13 at a file that imports the hook in another way. *)
Lemma update_imports_in_file_no_match_witness :
  update_imports_in_file "src/a.ts" one_file
  = Done false (mkWorld (disk one_file) (log one_file ++ [Reading "src/a.ts"])).
Proof.
  apply (update_imports_in_file_no_match "src/a.ts" one_file (mkFile two_imports true true));
    vm_compute; reflexivity.
Defined.

End MoreOnUpdateImports.

(** ** The search of [update_imports.py] *)

Module FindFiles.

Import Re Sys UpdateImports UpdateImportsScript Candidates Report Shape Fixtures Worlds MoreWorlds.
Import Matcher Effects Files DryRun MoreOnUpdateImports.

Lemma walk_files_Done directory w :
  walk_files directory w
  = Done (map fst (filter (fun e => walked directory (fst e) && is_regular (snd e)) (disk w))) w.
Proof. reflexivity. Qed.

(** The loops of [find_files_with_import] over files that can be read. *)
Lemma collect_matching_Done pat paths : forall acc w,
  forallb (can_read (disk w)) (filter is_typescript paths) = true ->
  collect_matching paths pat acc w
  = Done (acc ++ filter (holds_match pat (disk w)) (filter is_typescript paths))
         (mkWorld (disk w) (log w ++ map Reading (filter is_typescript paths))).
Proof.
  induction paths as [|p paths IH]; intros acc w H.
  - cbn. rewrite !app_nil_r. now destruct w.
  - cbn [collect_matching filter] in *. destruct (is_typescript p).
    + cbn [forallb] in H. apply andb_prop in H as [Hp H].
      unfold can_read in Hp. unfold bind, read_text.
      destruct (lookup p (disk w)) as [[f|]|] eqn:L; try discriminate.
      rewrite Hp. cbn [filter map]. unfold holds_match at 1. rewrite L.
      destruct (search pat (data f)) as [h|] eqn:S.
      * destruct (findall pat (data f)) eqn:F;
          [apply search_findall in F; congruence|].
        rewrite IH by assumption. cbn [disk log]. now rewrite <- !app_assoc.
      * apply search_findall in S. rewrite S.
        rewrite IH by assumption. cbn [disk log]. now rewrite <- !app_assoc.
    + now apply IH.
Qed.

(** The search over readable candidates. *)
Lemma find_files_with_import_Done directory pat w :
  forallb (can_read (disk w)) (candidates directory (disk w)) = true ->
  find_files_with_import directory pat w
  = Done (filter (holds_match pat (disk w)) (candidates directory (disk w)))
         (mkWorld (disk w) (log w ++ map Reading (candidates directory (disk w)))).
Proof.
  intros H. unfold find_files_with_import, bind. rewrite walk_files_Done.
  now rewrite collect_matching_Done.
Qed.

(** X14.  When every file below the directory whose name ends in [.ts] or
    [.tsx] can be read, [find_files_with_import] reads each of them once,
    in listing order, changes nothing on disk, and returns those whose
    content holds a match, in that order; directories and other names are
    not looked at. *)
Theorem find_files_with_import_finds directory pat w :
  forallb (can_read (disk w)) (candidates directory (disk w)) = true ->
  find_files_with_import directory pat w
  = Done (filter (holds_match pat (disk w)) (candidates directory (disk w)))
         (mkWorld (disk w) (log w ++ map Reading (candidates directory (disk w)))).
Proof. exact (@find_files_with_import_Done directory pat w). Qed.

(** The loops stop at the first file that cannot be read. *)
Lemma collect_matching_Raised pat paths : forall acc w,
  forallb (can_read (disk w)) (filter is_typescript paths) = false ->
  exists e w',
    collect_matching paths pat acc w = Raised e w'
    /\ disk w' = disk w /\ writes w' = writes w.
Proof.
  induction paths as [|p paths IH]; intros acc w H; [discriminate|].
  cbn [collect_matching filter] in *. destruct (is_typescript p); [|now apply IH].
  cbn [forallb] in H. unfold bind.
  destruct (read_text p w) as [content w1|e w1] eqn:R.
  - pose proof (read_text_Done _ _ _ _ R) as ->.
    assert (Hp : can_read (disk w) p = true).
    { unfold can_read. unfold read_text in R.
      destruct (lookup p (disk w)) as [[f|]|]; try discriminate.
      destruct (readable f); [reflexivity | discriminate]. }
    rewrite Hp in H. cbn [andb] in H.
    destruct (search pat content);
      (edestruct IH as (e & w' & -> & Hd & Hw); [exact H|]);
      exists e, w'; cbn [disk] in *; (split; [reflexivity|]); (split; [assumption|]);
      rewrite Hw; unfold writes; cbn [log]; rewrite filter_app; cbn; apply app_nil_r.
  - pose proof (read_text_Raised _ _ _ _ R) as ->. now exists e, w.
Qed.

(** The search with a candidate that cannot be read. *)
Lemma find_files_with_import_Raised directory pat w :
  forallb (can_read (disk w)) (candidates directory (disk w)) = false ->
  exists e w',
    find_files_with_import directory pat w = Raised e w'
    /\ disk w' = disk w /\ writes w' = writes w.
Proof.
  intros H. unfold find_files_with_import, bind. rewrite walk_files_Done.
  now apply collect_matching_Raised.
Qed.

(** X15.  When some file below the directory whose name ends in [.ts] or
    [.tsx] cannot be read, [find_files_with_import] raises, whether or not
    that file holds a match, and has written nothing. *)
Theorem find_files_with_import_unreadable directory pat w :
  forallb (can_read (disk w)) (candidates directory (disk w)) = false ->
  exists e w',
    find_files_with_import directory pat w = Raised e w'
    /\ disk w' = disk w /\ writes w' = writes w.
Proof. exact (@find_files_with_import_Raised directory pat w). Qed.

(** X15 at a tree with a file that cannot be read. *)
Lemma find_files_with_import_unreadable_witness :
  exists e w',
    find_files_with_import "src" pattern locked_file = Raised e w'
    /\ disk w' = disk locked_file /\ writes w' = writes locked_file.
Proof.
  apply (find_files_with_import_unreadable "src" pattern locked_file).
  vm_compute. reflexivity.
Defined.

(** X14 at a small tree. *)
Lemma find_files_with_import_finds_witness :
  find_files_with_import "src" pattern hooks_tree
  = Done (filter (holds_match pattern (disk hooks_tree)) (candidates "src" (disk hooks_tree)))
         (mkWorld (disk hooks_tree)
                  (log hooks_tree ++ map Reading (candidates "src" (disk hooks_tree)))).
Proof.
  apply (find_files_with_import_finds "src" pattern hooks_tree).
  vm_compute. reflexivity.
Defined.

(** The files found and the messages, literally, on a small tree. *)
Example find_files_with_import_hooks_tree :
  find_files_with_import "src" pattern hooks_tree
  = Done ["src/a.ts"; "src/pages/c.tsx"]
         (mkWorld (disk hooks_tree)
                  [Reading "src/a.ts"; Reading "src/b.ts"; Reading "src/pages/c.tsx"]).
Proof. vm_compute. reflexivity. Qed.

(** The loop of [main] over files that can be read and written. *)
Lemma update_all_Done files : forall n out w,
  forallb (usable (disk w)) files = true ->
  exists n' w',
    update_all files n out w = Done (n', out ++ map Processing files) w'
    /\ n <= n' <= n + length files
    /\ length (writes w') = length (writes w) + (n' - n)
    /\ reads w' = reads w ++ files.
Proof.
  induction files as [|p files IH]; intros n out w H.
  - exists n, w. cbn. rewrite !app_nil_r. repeat split; lia.
  - cbn [forallb] in H. apply andb_prop in H as [Hp H].
    destruct (usable_inv _ _ Hp) as (f & Hl & Hr & Hw).
    destruct (update_imports_in_file_effect p w f Hl Hr Hw)
      as (b & w1 & E & _ & Hwr & Hd & _).
    assert (Hrd : reads w1 = reads w ++ [p]).
    { revert E. unfold update_imports_in_file, bind, read_text. rewrite Hl, Hr.
      destruct (negb _).
      - unfold write_text. cbn [disk log]. rewrite Hl, Hw. unfold ret.
        intros [= _ <-]. unfold reads. cbn [log]. rewrite !flat_map_app. cbn.
        now rewrite app_nil_r.
      - unfold ret. intros [= _ <-]. unfold reads. cbn [log]. now rewrite flat_map_app. }
    assert (H1 : forallb (usable (disk w1)) files = true).
    { rewrite Hd. destruct b; [|assumption].
      rewrite forallb_forall in *. intros q Hq. apply usable_store; auto. }
    cbn [update_all]. unfold bind at 1. rewrite E.
    destruct b.
    + destruct (IH (n + 1) (out ++ [Processing p]) w1 H1) as (n' & w' & -> & Hn & Hlen & Hr').
      exists n', w'. rewrite <- app_assoc. split; [reflexivity|].
      rewrite Hlen, Hwr, length_app, Hr', Hrd, <- app_assoc. cbn [length app]. repeat split; lia.
    + destruct (IH n (out ++ [Processing p]) w1 H1) as (n' & w' & -> & Hn & Hlen & Hr').
      exists n', w'. rewrite <- app_assoc. split; [reflexivity|].
      rewrite Hlen, Hwr, app_nil_r, Hr', Hrd, <- app_assoc. cbn [length app]. repeat split; lia.
Qed.

End FindFiles.

(** ** The run of [update_imports.py] *)

Module UpdateRun.

Import Re Sys UpdateImports UpdateImportsScript Candidates Report Shape Fixtures Worlds MoreWorlds.
Import Matcher Effects Files DryRun MoreOnUpdateImports FindFiles.

Lemma usable_can_read d p : usable d p = true -> can_read d p = true.
Proof.
  unfold usable, can_read. destruct (lookup p d) as [[f|]|]; try discriminate.
  now intros [? _]%andb_prop.
Qed.

Lemma writes_reading w ps :
  writes (mkWorld (disk w) (log w ++ map Reading ps)) = writes w.
Proof.
  rewrite writes_app.
  replace (filter is_write (map Reading ps)) with (@nil event); [apply app_nil_r|].
  induction ps as [|p ps IH]; [reflexivity | exact IH].
Qed.

(** X16.  When every [.ts] and [.tsx] file below [src] can be read and
    written, [main] of [update_imports.py] completes: it announces the
    files that hold a match, in listing order, then the number of files
    updated, which is at most their number and is the number of files it
    has written. *)
Theorem main_updates_the_files_found w :
  forallb (usable (disk w)) (candidates "src" (disk w)) = true ->
  exists n w',
    main w
    = Done (map Processing (filter (holds_match pattern (disk w)) (candidates "src" (disk w)))
            ++ [Finished n]) w'
    /\ n <= length (filter (holds_match pattern (disk w)) (candidates "src" (disk w)))
    /\ length (writes w') = length (writes w) + n.
Proof.
  intros H.
  assert (Hr : forallb (can_read (disk w)) (candidates "src" (disk w)) = true).
  { rewrite forallb_forall in *. intros p Hp. apply usable_can_read. now apply H. }
  unfold main, bind. rewrite (find_files_with_import_Done _ _ _ Hr).
  set (files := filter (holds_match pattern (disk w)) (candidates "src" (disk w))).
  set (w0 := mkWorld (disk w) (log w ++ map Reading (candidates "src" (disk w)))).
  assert (H0 : forallb (usable (disk w0)) files = true).
  { rewrite forallb_forall in *. intros p Hp. apply H.
    unfold files in Hp. now apply filter_In in Hp. }
  destruct (update_all_Done files 0 [] w0 H0) as (n & w' & -> & Hn & Hlen & _).
  exists n, w'. unfold ret. cbn [app]. split; [reflexivity|].
  unfold w0 in Hlen. rewrite writes_reading in Hlen. split; lia.
Qed.

(** X16 at a small tree. *)
Lemma main_updates_the_files_found_witness :
  exists n w',
    main hooks_tree
    = Done (map Processing (filter (holds_match pattern (disk hooks_tree))
                                   (candidates "src" (disk hooks_tree)))
            ++ [Finished n]) w'
    /\ n <= length (filter (holds_match pattern (disk hooks_tree))
                           (candidates "src" (disk hooks_tree)))
    /\ length (writes w') = length (writes hooks_tree) + n.
Proof.
  apply (main_updates_the_files_found hooks_tree). vm_compute. reflexivity.
Defined.

(** The run on the small tree, literally. *)
Example main_hooks_tree :
  exists w',
    main hooks_tree
    = Done [Processing "src/a.ts"; Processing "src/pages/c.tsx"; Finished 2] w'
    /\ writes w'
       = [Writing "src/a.ts" "import { useAuth } from 'features/auth/hooks';";
          Writing "src/pages/c.tsx" "import { useAuth } from '../features/auth/hooks';"].
Proof. eexists. split; vm_compute; reflexivity. Qed.

(** X17.  When some [.ts] or [.tsx] file below [src] cannot be read,
    [main] of [update_imports.py] raises before it updates any file: the
    disk and the writes are as they were. *)
Theorem main_stops_before_any_update w :
  forallb (can_read (disk w)) (candidates "src" (disk w)) = false ->
  exists e w', main w = Raised e w' /\ disk w' = disk w /\ writes w' = writes w.
Proof.
  intros H. unfold main, bind.
  destruct (find_files_with_import_Raised "src" pattern w H) as (e & w' & -> & Hd & Hw).
  now exists e, w'.
Qed.

(** X17 at a tree with a file that cannot be read. *)
Lemma main_stops_before_any_update_witness :
  exists e w',
    main locked_hooks = Raised e w'
    /\ disk w' = disk locked_hooks /\ writes w' = writes locked_hooks.
Proof.
  apply (main_stops_before_any_update locked_hooks). vm_compute. reflexivity.
Defined.

(** A walked path has a separator. *)
Lemma count_startswith c : forall s p,
  Str.startswith s p = true -> Str.count c s <= Str.count c p.
Proof.
  induction s as [|x s IH]; intros [|y p]; cbn [Str.startswith Str.count];
    try discriminate; try lia.
  intros [H1 H2]%andb_prop. apply Ascii.eqb_eq in H1. subst y.
  apply IH in H2. lia.
Qed.

Lemma count_endswith c : forall s,
  Str.endswith (String c "") s = true -> 1 <= Str.count c s.
Proof.
  induction s as [|x s IH]; cbn [Str.endswith Str.count].
  - discriminate.
  - intros [H|H]%orb_prop.
    + apply String.eqb_eq in H. injection H as <- <-. rewrite Ascii.eqb_refl. lia.
    + apply IH in H. lia.
Qed.

Lemma count_app c : forall s t,
  Str.count c (s ++ t) = Str.count c s + Str.count c t.
Proof.
  induction s as [|x s IH]; intros t; cbn [append Str.count]; [reflexivity|].
  rewrite IH. lia.
Qed.

Lemma walked_has_separator directory p :
  walked directory p = true -> 1 <= Str.count "/" p.
Proof.
  unfold walked. intros [_ H]%andb_prop.
  apply (count_startswith "/"%char) in H.
  destruct (Str.endswith "/" directory) eqn:E.
  - apply (count_endswith "/"%char) in E. lia.
  - rewrite count_app in H. cbn in H. lia.
Qed.

Lemma In_candidates directory d p :
  In p (candidates directory d) ->
  walked directory p = true /\ is_typescript p = true.
Proof.
  unfold candidates. intros [H1 H2]%filter_In. split; [|assumption].
  apply in_map_iff in H1 as ([q n] & <- & [_ H]%filter_In). cbn [fst snd] in H.
  now apply andb_prop in H.
Qed.

(** X18.  Every path [find_files_with_import] returns has a separator:
    its depth is not negative, its prefix is the step up repeated (number
    of separators) minus one times, and its name ends in [.ts] or
    [.tsx]. *)
Theorem files_found_have_depth directory pat w files w' p :
  find_files_with_import directory pat w = Done files w' ->
  In p files ->
  (0 <= depth p)%Z /\ rel_path p = Str.repeat "../" (Str.count "/" p - 1)
  /\ is_typescript p = true.
Proof.
  intros H Hp.
  destruct (forallb (can_read (disk w)) (candidates directory (disk w))) eqn:E.
  - rewrite (find_files_with_import_Done _ _ _ E) in H. injection H as <- _.
    apply filter_In in Hp as [Hp _]. apply In_candidates in Hp as [Hb Ht].
    apply walked_has_separator in Hb. unfold rel_path, depth.
    repeat split; [lia | f_equal; lia | assumption].
  - destruct (find_files_with_import_Raised directory pat w E) as (e & w1 & H1 & _).
    congruence.
Qed.

(** X18 at a file one directory below [src]. *)
Lemma files_found_have_depth_witness :
  find_files_with_import "src" pattern hooks_tree
  = Done ["src/a.ts"; "src/pages/c.tsx"]
         (mkWorld (disk hooks_tree)
                  [Reading "src/a.ts"; Reading "src/b.ts"; Reading "src/pages/c.tsx"])
  /\ (0 <= depth "src/pages/c.tsx")%Z
  /\ rel_path "src/pages/c.tsx" = Str.repeat "../" (Str.count "/" "src/pages/c.tsx" - 1)
  /\ is_typescript "src/pages/c.tsx" = true.
Proof.
  assert (H : find_files_with_import "src" pattern hooks_tree
              = Done ["src/a.ts"; "src/pages/c.tsx"]
                  (mkWorld (disk hooks_tree)
                     [Reading "src/a.ts"; Reading "src/b.ts"; Reading "src/pages/c.tsx"]))
    by (vm_compute; reflexivity).
  split; [exact H|].
  apply (files_found_have_depth "src" pattern hooks_tree _ _ "src/pages/c.tsx" H).
  cbn. right. left. reflexivity.
Defined.

End UpdateRun.

(** ** More on [fix_planning_imports.py] *)

Module MoreOnPlanning.

Import Re Sys FixPlanningImports PlanningScript Report Shape Fixtures Worlds MoreWorlds.
Import Matcher Effects Files DryRun Frame MoreOnUpdateImports.

(** X19.  A content none of the patterns of a replacement list matches
    goes through [apply_replacements] unchanged. *)
Theorem apply_replacements_no_match rs : forall content,
  (forall p t, In (p, t) rs -> findall p content = []) ->
  apply_replacements rs content = content.
Proof.
  induction rs as [|[p t] rs IH]; intros content H; [reflexivity|].
  cbn [apply_replacements]. rewrite (sub_no_match p t content).
  - apply IH. intros p' t' Hin. apply (H p' t'). now right.
  - apply (H p t). now left.
Qed.

(** X19 at the list of the script and a content without import. *)
Lemma apply_replacements_no_match_witness :
  apply_replacements replacements "const x = 1;" = "const x = 1;".
Proof.
  apply (apply_replacements_no_match replacements "const x = 1;").
  intros p t Hin. cbn in Hin.
  repeat (destruct Hin as [[= <- <-]|Hin]; [vm_compute; reflexivity|]). destruct Hin.
Defined.

(** X20.  The entry point of [fix_planning_imports.py]: without a path
    argument it prints the usage and touches nothing; with a path that is
    not there it says so and touches nothing; with a directory it raises
    [IsADirectoryError]; with a file that cannot be read, or can be read
    but not written, it raises [PermissionError] with nothing written; and
    with a file that can be read and written it writes the transformed
    content and prints that it did.  Further arguments are ignored. *)
Theorem script_outcome name file_path more w :
  script [] w = Done (Some Usage) w
  /\ script [name] w = Done (Some Usage) w
  /\ match lookup file_path (disk w) with
     | None =>
         script (name :: file_path :: more) w = Done (Some (NoSuchFile file_path)) w
     | Some Directory =>
         script (name :: file_path :: more) w = Raised IsADirectoryError w
     | Some (Regular f) =>
         if readable f then
           if writable f then
             script (name :: file_path :: more) w
             = Done None
                 (mkWorld (store file_path (apply_replacements replacements (data f)) (disk w))
                    (log w ++ [Reading file_path;
                               Writing file_path (apply_replacements replacements (data f));
                               Printing (ImportsFixed file_path)]))
           else
             script (name :: file_path :: more) w
             = Raised PermissionError (mkWorld (disk w) (log w ++ [Reading file_path]))
         else script (name :: file_path :: more) w = Raised PermissionError w
     end.
Proof.
  split; [reflexivity|]. split; [reflexivity|].
  destruct (lookup file_path (disk w)) as [[f|]|] eqn:L.
  - destruct (readable f) eqn:Hr; [destruct (writable f) eqn:Hw|];
      cbn [script]; unfold bind, path_exists; rewrite L;
      unfold fix_imports, bind, read_text; rewrite L, Hr; try reflexivity;
      unfold write_text; cbn [disk log]; rewrite L, Hw; try reflexivity.
    unfold print, emit, ret. cbn [disk log]. now rewrite <- !app_assoc.
  - cbn [script]. unfold bind, path_exists. rewrite L.
    unfold fix_imports, bind, read_text. now rewrite L.
  - cbn [script]. unfold bind, path_exists. now rewrite L.
Qed.

(** X21.  [fix_imports] of [fix_planning_imports.py], whether it completes
    or raises, creates, removes and renames nothing, changes no permission
    and leaves every path but its argument as it was. *)
Theorem fix_imports_touches_one_file file_path w :
  shape (disk (world_of (fix_imports file_path w))) = shape (disk w)
  /\ forall p, p <> file_path ->
       lookup p (disk (world_of (fix_imports file_path w))) = lookup p (disk w).
Proof.
  unfold fix_imports, bind, read_text. cbv beta.
  destruct (lookup file_path (disk w)) as [[f|]|] eqn:L; try (now split).
  destruct (readable f); [|now split].
  unfold write_text. cbn [disk log]. rewrite L.
  destruct (writable f); [|now split].
  cbn [print emit world_of disk]. split.
  - exact (shape_store _ _ _ _ L).
  - intros p Hp. now apply lookup_store_other.
Qed.

End MoreOnPlanning.
